(** * execfs: the FUSE operations of fileops.c

    A shallow embedding of [src/fileops.c].  Every callback of the
    [fuse_operations] table is a function in a small state monad whose state
    holds the process globals, the identity of the calling process, the
    operating-system world behind the libc stream calls, and the log.

    The build modelled is the one without [NDEBUG]: the file's own [assert]
    logs the failure and makes the callback return [-1].  [exec_destroy],
    which only closes the log, is left out. *)

From Stdlib Require Import ZArith List String Ascii Bool Lia.
Import ListNotations.

Local Open Scope string_scope.
Local Open Scope Z_scope.

Set Implicit Arguments.

(** ** Platform constants (Linux, as seen by fileops.c) *)

Module Errno.
Definition ENOENT : Z := 2.
Definition EBADF  : Z := 9.
Definition EACCES : Z := 13.
End Errno.

Module Fcntl.
Definition O_RDONLY : Z := 0.
Definition O_WRONLY : Z := 1.
Definition O_RDWR   : Z := 2.
End Fcntl.

Module Stat.
Definition S_IFMT  : Z := 61440.  (* 0170000 *)
Definition S_IFDIR : Z := 16384.  (* 0040000 *)
Definition S_IFREG : Z := 32768.  (* 0100000 *)
Definition S_IRUSR : Z := 256.    (* 0400 *)
Definition S_IWUSR : Z := 128.    (* 0200 *)
Definition S_IXUSR : Z := 64.     (* 0100 *)
Definition S_IRGRP : Z := 32.     (* 0040 *)
Definition S_IWGRP : Z := 16.     (* 0020 *)
Definition S_IXGRP : Z := 8.      (* 0010 *)
Definition S_IROTH : Z := 4.      (* 0004 *)
Definition S_IWOTH : Z := 2.      (* 0002 *)
Definition S_IXOTH : Z := 1.      (* 0001 *)

(** [struct stat], the fields exec_getattr assigns. *)
Record stat := {
  st_uid : Z;
  st_gid : Z;
  st_atime : Z;
  st_mtime : Z;
  st_ctime : Z;
  st_mode : Z;
  st_size : Z;
  st_nlink : Z
}.
End Stat.

(** [#define BIT(n) (1UL << (n))] and the three rights bits. *)
Definition BIT (n : Z) : Z := Z.shiftl 1 n.
Definition R : Z := BIT 2.
Definition W : Z := BIT 1.
Definition X : Z := BIT 0.

Definition RIGHTS_MASK : Z := 3.

(** Conversions of C: [size_t] to [int] on return, [off_t] to [int] in the
    directory loop.  Two's complement on 32 bits. *)
Definition SIZE_MAX : Z := 2 ^ 64 - 1.
Definition INT_MAX : Z := 2 ^ 31 - 1.
Definition to_int (z : Z) : Z := (z + 2 ^ 31) mod 2 ^ 32 - 2 ^ 31.

(** ** Strings

    A C string is modelled by the [string] of its characters before the
    terminating NUL.  [strcmp] is specified by the sign of its result only;
    the model returns -1, 0 or 1. *)

Definition uchar (c : ascii) : Z := Z.of_N (N_of_ascii c).

Fixpoint strcmp (s1 s2 : string) : Z :=
  match s1, s2 with
  | EmptyString, EmptyString => 0
  | EmptyString, String _ _ => -1
  | String _ _, EmptyString => 1
  | String c1 r1, String c2 r2 =>
      if uchar c1 <? uchar c2 then -1
      else if uchar c2 <? uchar c1 then 1
      else strcmp r1 r2
  end.

(** ** Entries and globals *)

(** Modelled from the spec: [entry_t] of entry.h, which is not part of the
    sources at hand.  The spec's Entry is a path segment, a command string and
    nine boolean permission bits; fileops.c reads exactly these fields. *)
Record entry_t := {
  path : string;
  command : string;
  u_r : bool; u_w : bool; u_x : bool;
  g_r : bool; g_w : bool; g_x : bool;
  o_r : bool; o_w : bool; o_x : bool
}.

(** Modelled from the spec: the globals of globals.h, which is not part of
    the sources at hand: the entry table [entries] (its length is
    [entries_sz]), the mount identity [uid], [gid], and the file size [size]
    reported for every entry. *)
Record globals := {
  entries : list entry_t;
  uid : Z;
  gid : Z;
  size : Z
}.

Definition entries_sz (g : globals) : Z := Z.of_nat (List.length (entries g)).

(** [entries[i]]; [None] stands for a read outside the table. *)
Definition entries_at (g : globals) (i : Z) : option entry_t :=
  if i <? 0 then None else nth_error (entries g) (Z.to_nat i).

(** ** Path resolution *)

(** [static int is_root(const char *path)]: [!strcmp("/", path)]. *)
Definition is_root (p : string) : bool :=
  strcmp "/" p =? 0.

(** The loop of [find_entry]: [for (i = 0; i < entries_sz; ++i)].  [fuel]
    bounds the number of iterations; [entries_sz - i] of them are enough. *)
Fixpoint find_entry_loop (g : globals) (key : string) (fuel : nat) (i : Z)
  : option entry_t :=
  match fuel with
  | O => None
  | S fuel' =>
      if i <? entries_sz g then
        match entries_at g i with
        | Some e =>
            if strcmp key (path e) =? 0 then Some e
            else find_entry_loop g key fuel' (i + 1)
        | None => None
        end
      else None
  end.

(** [static entry_t *find_entry(const char *path)]; [None] is [NULL]. *)
Definition find_entry (g : globals) (p : string) : option entry_t :=
  match p with
  | String c rest =>
      if negb (Ascii.eqb c "/") then None
      else find_entry_loop g rest (List.length (entries g)) 0
  | EmptyString => None
  end.

(** The three outcomes of looking a path up, in the order exec_getattr,
    exec_flush, exec_fsync and the no-op stubs do it: [is_root] first, then
    [find_entry]. *)
Inductive resolved :=
| Root
| Entry (e : entry_t)
| NotFound.

Definition resolve (g : globals) (p : string) : resolved :=
  if is_root p then Root
  else match find_entry g p with
       | Some e => Entry e
       | None => NotFound
       end.

(** ** The environment of a callback *)

Module Fuse.
(** [struct fuse_context], the fields access_rights reads. *)
Record fuse_context := { uid : Z; gid : Z }.

(** [struct fuse_file_info], the fields fileops.c uses.  [fh] holds the
    [FILE*] returned by popen, 0 for [NULL]. *)
Record fuse_file_info := { flags : Z; fh : Z }.
End Fuse.

(** Modelled from the spec: [LOG] of log.h, which is not part of the sources
    at hand.  Logging is an external collaborator of the core; a call appends
    its format string and arguments to the log and does nothing else. *)
Inductive log_arg :=
| LStr (s : string)
| LInt (z : Z)
| LPtr (z : Z).

Record log_line := { fmt : string; args : list log_arg }.

(** The libc calls of fileops.c, over an abstract operating-system world.
    [FILE*] values are integers, 0 for [NULL].
    - [fread stream size] gives the bytes it stored into the buffer; its
      return value is their number, a [size_t].  A short count means end of
      file or an error, told apart by [ferror] only.
    - [fwrite stream buf size] gives its return value, the number of bytes
      accepted, a [size_t]. *)
Class Libc (World : Type) := {
  popen  : string -> string -> World -> Z * World;
  pclose : Z -> World -> Z * World;
  fread  : Z -> Z -> World -> list Byte.byte * World;
  fwrite : Z -> list Byte.byte -> Z -> World -> Z * World;
  fflush : Z -> World -> Z * World;
  fileno : Z -> World -> Z;
  fsync  : Z -> World -> Z * World;
  ferror : Z -> World -> bool;
  errno  : World -> Z;
  time   : World -> Z
}.

Record state (World : Type) := {
  s_globals : globals;
  s_context : Fuse.fuse_context;
  s_world : World;
  s_log : list log_line
}.

(** State passing: a callback maps the state before to a result and the
    state after. *)
Definition StateM (World A : Type) : Type := state World -> A * state World.

Definition ret {World A : Type} (a : A) : StateM World A := fun s => (a, s).

Definition bind {World A B : Type} (m : StateM World A)
           (k : A -> StateM World B) : StateM World B :=
  fun s => let (a, s') := m s in k a s'.

Notation "x <- m ;; k" := (bind m (fun x => k))
  (at level 61, m at next level, right associativity).
Notation "m ;; k" := (bind m (fun _ => k))
  (at level 61, right associativity).

Section Callbacks.
Context {World : Type} {libc : Libc World}.

Definition M (A : Type) : Type := StateM World A.

Definition get_globals : M globals := fun s => (s_globals s, s).

(** [fuse_get_context()] *)
Definition fuse_get_context : M Fuse.fuse_context :=
  fun s => (s_context s, s).

(** A libc call acts on the world and on nothing else. *)
Definition call {A : Type} (f : World -> A * World) : M A :=
  fun s =>
    let (a, w) := f (s_world s) in
    (a, {| s_globals := s_globals s; s_context := s_context s;
           s_world := w; s_log := s_log s |}).

Definition observe {A : Type} (f : World -> A) : M A :=
  fun s => (f (s_world s), s).

Definition LOG (format : string) (arguments : list log_arg) : M unit :=
  fun s =>
    (tt, {| s_globals := s_globals s; s_context := s_context s;
            s_world := s_world s;
            s_log := s_log s ++ [{| fmt := format; args := arguments |}] |}).

(** The failing branch of the file's [assert]: the log line; the caller
    then returns [-1]. *)
Definition assert_failed (line : Z) (func expr : string) : M unit :=
  LOG "%s:%d: %s: Assertion `%s' failed"
      [LStr "fileops.c"; LInt line; LStr func; LStr expr].

(** ** Access rights *)

(** [static unsigned int access_rights(entry_t *entry)] *)
Definition access_rights (entry : entry_t) : M Z :=
  context <- fuse_get_context ;;
  g <- get_globals ;;
  if Fuse.uid context =? uid g then
    ret (Z.lor (Z.lor (if u_r entry then R else 0)
                      (if u_w entry then W else 0))
               (if u_x entry then X else 0))
  else if Fuse.gid context =? gid g then
    ret (Z.lor (Z.lor (if g_r entry then R else 0)
                      (if g_w entry then W else 0))
               (if g_x entry then X else 0))
  else
    ret (Z.lor (Z.lor (if o_r entry then R else 0)
                      (if o_w entry then W else 0))
               (if o_x entry then X else 0)).

(** ** flush and fsync *)

(** [static int exec_flush(const char *path, struct fuse_file_info *fi)] *)
Definition exec_flush (p : string) (fi : option Fuse.fuse_file_info) : M Z :=
  if is_root p then ret 0
  else
    g <- get_globals ;;
    match find_entry g p with
    | None => ret (- Errno.ENOENT)
    | Some e =>
        match fi with
        | None => assert_failed 105 "exec_flush" "fi != NULL" ;; ret (-1)
        | Some info =>
            if Fuse.fh info =? 0 then
              assert_failed 106 "exec_flush" "fi->fh != 0" ;; ret (-1)
            else call (fflush (Fuse.fh info))
        end
    end.

(** [static int exec_fsync(const char *path, int datasync,
                           struct fuse_file_info *fi)] *)
Definition exec_fsync (p : string) (datasync : Z)
           (fi : option Fuse.fuse_file_info) : M Z :=
  if is_root p then ret 0
  else
    g <- get_globals ;;
    match find_entry g p with
    | None => ret (- Errno.ENOENT)
    | Some e =>
        match fi with
        | None => assert_failed 120 "exec_fsync" "fi != NULL" ;; ret (-1)
        | Some info =>
            if Fuse.fh info =? 0 then
              assert_failed 121 "exec_fsync" "fi->fh != 0" ;; ret (-1)
            else
              fd <- observe (fileno (Fuse.fh info)) ;;
              call (fsync fd)
        end
    end.

(** ** getattr *)

(** [static int exec_getattr(const char *path, struct stat *stbuf)].  The
    result pairs the return value with the buffer behind [stbuf] after the
    call. *)
Definition exec_getattr (p : string) (stbuf : option Stat.stat)
  : M (Z * option Stat.stat) :=
  match stbuf with
  | None =>
      assert_failed 130 "exec_getattr" "stbuf != NULL" ;; ret (-1, None)
  | Some st =>
      g <- get_globals ;;
      now <- observe time ;;
      let st1 := {| Stat.st_uid := uid g; Stat.st_gid := gid g;
                    Stat.st_atime := now; Stat.st_mtime := now;
                    Stat.st_ctime := now;
                    Stat.st_mode := Stat.st_mode st;
                    Stat.st_size := Stat.st_size st;
                    Stat.st_nlink := Stat.st_nlink st |} in
      if is_root p then
        ret (0, Some {| Stat.st_uid := Stat.st_uid st1;
                        Stat.st_gid := Stat.st_gid st1;
                        Stat.st_atime := Stat.st_atime st1;
                        Stat.st_mtime := Stat.st_mtime st1;
                        Stat.st_ctime := Stat.st_ctime st1;
                        Stat.st_mode :=
                          Z.lor (Z.lor (Z.lor (Z.lor (Z.lor (Z.lor
                            Stat.S_IFDIR Stat.S_IRUSR) Stat.S_IXUSR)
                            Stat.S_IRGRP) Stat.S_IXGRP)
                            Stat.S_IROTH) Stat.S_IXOTH;
                        Stat.st_size := 0;
                        Stat.st_nlink := 1 |})
      else
        match find_entry g p with
        | None => ret (- Errno.ENOENT, Some st1)
        | Some e =>
            ret (0, Some {| Stat.st_uid := Stat.st_uid st1;
                            Stat.st_gid := Stat.st_gid st1;
                            Stat.st_atime := Stat.st_atime st1;
                            Stat.st_mtime := Stat.st_mtime st1;
                            Stat.st_ctime := Stat.st_ctime st1;
                            Stat.st_mode :=
                              Z.lor (Z.lor (Z.lor (Z.lor (Z.lor (Z.lor
                                (Z.lor (Z.lor (Z.lor
                                Stat.S_IFREG
                                (if u_r e then Stat.S_IRUSR else 0))
                                (if u_w e then Stat.S_IWUSR else 0))
                                (if u_x e then Stat.S_IXUSR else 0))
                                (if g_r e then Stat.S_IRGRP else 0))
                                (if g_w e then Stat.S_IWGRP else 0))
                                (if g_x e then Stat.S_IXGRP else 0))
                                (if o_r e then Stat.S_IROTH else 0))
                                (if o_w e then Stat.S_IWOTH else 0))
                                (if o_x e then Stat.S_IXOTH else 0);
                            Stat.st_size := size g;
                            Stat.st_nlink := 1 |})
        end
  end.

(** ** open, read, readdir, release, write *)

(** [static int exec_open(const char *path, struct fuse_file_info *fi)].
    The result pairs the return value with [*fi] after the call. *)
Definition exec_open (p : string) (fi : option Fuse.fuse_file_info)
  : M (Z * option Fuse.fuse_file_info) :=
  g <- get_globals ;;
  match find_entry g p with
  | None => ret (- Errno.ENOENT, fi)
  | Some e =>
      match fi with
      | None =>
          assert_failed 185 "exec_open" "fi != NULL" ;; ret (-1, None)
      | Some info =>
          entry_rights <- access_rights e ;;
          let rights := Z.land (Fuse.flags info) RIGHTS_MASK in
          if ((rights =? Fcntl.O_RDONLY) || (rights =? Fcntl.O_RDWR))
               && (Z.land entry_rights R =? 0)
             || ((rights =? Fcntl.O_WRONLY) || (rights =? Fcntl.O_RDWR))
                  && (Z.land entry_rights W =? 0)
          then ret (- Errno.EACCES, fi)
          else
            LOG "Opening %s (%s) for %s"
                [LStr p; LStr (command e);
                 LStr (if rights =? Fcntl.O_RDONLY then "read"
                       else if rights =? Fcntl.O_WRONLY then "write"
                       else "read/write")] ;;
            h <- call (popen (command e)
                             (if rights =? Fcntl.O_RDONLY then "r"
                              else "w")) ;;
            let info' := {| Fuse.flags := Fuse.flags info;
                            Fuse.fh := h |} in
            if h =? 0 then
              LOG "Failed to popen %s" [LStr (command e)] ;;
              ret (- Errno.EBADF, Some info')
            else
              LOG "Handle %p returned from popen" [LPtr h] ;;
              ret (0, Some info')
      end
  end.

(** What fread stored replaces the front of the buffer. *)
Definition store (data buf : list Byte.byte) : list Byte.byte :=
  data ++ skipn (List.length data) buf.

(** [static int exec_read(const char *path, char *buf, size_t size,
                          off_t offset, struct fuse_file_info *fi)].
    The result pairs the return value with [buf] after the call. *)
Definition exec_read (p : string) (buf : list Byte.byte) (size offset : Z)
           (fi : option Fuse.fuse_file_info) : M (Z * list Byte.byte) :=
  match fi with
  | None => assert_failed 210 "exec_read" "fi != NULL" ;; ret (-1, buf)
  | Some info =>
      if Fuse.fh info =? 0 then
        assert_failed 211 "exec_read" "fi->fh != 0" ;; ret (-1, buf)
      else
        LOG "read called on %s (popen handle %p)"
            [LStr p; LPtr (Fuse.fh info)] ;;
        data <- call (fread (Fuse.fh info) size) ;;
        let sz := Z.of_nat (List.length data) in
        (if sz =? SIZE_MAX then
           e <- observe errno ;;
           LOG "read from %s failed with error %d" [LStr p; LInt e]
         else
           LOG "read from %s returned %d bytes" [LStr p; LInt sz]) ;;
        ret (to_int sz, store data buf)
  end.

(** The loop of [exec_readdir]: [for (i = offset; i < entries_sz; ++i)].
    [filler] is the transport's [fuse_fill_dir_t], a function of the
    buffer, the name, the [stbuf] pointer and the next offset; it returns
    nonzero when the buffer is full.  A result [None] stands for a read
    outside [entries], whose behaviour is undefined.  [fuel] bounds the
    number of iterations. *)
Fixpoint readdir_loop {B : Type} (g : globals)
         (filler : B -> string -> option Stat.stat -> Z -> Z * B)
         (fuel : nat) (i : Z) (buf : B) : option Z * B :=
  match fuel with
  | O => (Some 0, buf)
  | S fuel' =>
      if i <? entries_sz g then
        match entries_at g i with
        | None => (None, buf)
        | Some e =>
            let (r, buf') := filler buf (path e) None (i + 1) in
            if negb (r =? 0) then (Some 0, buf')
            else readdir_loop g filler fuel' (i + 1) buf'
        end
      else (Some 0, buf)
  end.

(** [static int exec_readdir(const char *path, void *buf,
      fuse_fill_dir_t filler, off_t offset, struct fuse_file_info *fi)] *)
Definition exec_readdir {B : Type} (p : string) (buf : B)
           (filler : B -> string -> option Stat.stat -> Z -> Z * B)
           (offset : Z) (fi : option Fuse.fuse_file_info)
  : M (option Z * B) :=
  if negb (is_root p) then ret (Some (- Errno.EBADF), buf)
  else
    g <- get_globals ;;
    ret (readdir_loop g filler (S (List.length (entries g)))
                      (to_int offset) buf).

(** [static int exec_release(const char *path, struct fuse_file_info *fi)] *)
Definition exec_release (p : string) (fi : option Fuse.fuse_file_info)
  : M Z :=
  g <- get_globals ;;
  if negb (is_root p
           || match find_entry g p with Some _ => true | None => false end)
  then
    assert_failed 240 "exec_release"
                  "is_root(path) || find_entry(path) != NULL" ;;
    ret (-1)
  else
    match fi with
    | None => assert_failed 241 "exec_release" "fi != NULL" ;; ret (-1)
    | Some info =>
        if Fuse.fh info =? 0 then
          assert_failed 242 "exec_release" "fi->fh != 0" ;; ret (-1)
        else
          call (pclose (Fuse.fh info)) ;;
          ret 0
    end.

(** [static int exec_write(const char *path, const char *buf, size_t size,
                           off_t offset, struct fuse_file_info *fi)] *)
Definition exec_write (p : string) (buf : list Byte.byte) (size offset : Z)
           (fi : option Fuse.fuse_file_info) : M Z :=
  match fi with
  | None => assert_failed 248 "exec_write" "fi != NULL" ;; ret (-1)
  | Some info =>
      if Fuse.fh info =? 0 then
        assert_failed 249 "exec_write" "fi->fh != 0" ;; ret (-1)
      else
        LOG "write called on %s (popen handle %p)"
            [LStr p; LPtr (Fuse.fh info)] ;;
        sz <- call (fwrite (Fuse.fh info) buf size) ;;
        (if sz =? SIZE_MAX then
           e <- observe errno ;;
           LOG "write to %s failed with error %d" [LStr p; LInt e]
         else
           LOG "write to %s of %d bytes" [LStr p; LInt sz]) ;;
        ret (to_int sz)
  end.

(** ** The stubs *)

(** [#define FAIL_STUB(func, args...)]: the body shared by the rejected
    operations; [args] are the arguments after [path], none of them read. *)
Definition FAIL_STUB (func : string) {A : Type} (p : string) (args : A)
  : M Z :=
  LOG "Fail stubbed function %s called on %s"
      [LStr ("exec_" ++ func); LStr p] ;;
  ret (- Errno.EACCES).

(** [#define NOP_STUB(func, args...)]: the body shared by the operations
    accepted without effect. *)
Definition NOP_STUB (func : string) {A : Type} (p : string) (args : A)
  : M Z :=
  LOG "No-op stubbed function %s called on %s"
      [LStr ("exec_" ++ func); LStr p] ;;
  g <- get_globals ;;
  if negb (is_root p)
     && match find_entry g p with None => true | Some _ => false end
  then ret (- Errno.ENOENT)
  else ret 0.

Definition exec_bmap (p : string) (blocksize idx : Z) : M Z :=
  FAIL_STUB "bmap" p (blocksize, idx).
Definition exec_chmod (p : string) (mode : Z) : M Z :=
  FAIL_STUB "chmod" p mode.
Definition exec_chown (p : string) (uid gid : Z) : M Z :=
  FAIL_STUB "chown" p (uid, gid).
Definition exec_fsyncdir (p : string) (datasync : Z)
           (fi : option Fuse.fuse_file_info) : M Z :=
  NOP_STUB "fsyncdir" p (datasync, fi).
Definition exec_link (p : string) (target : string) : M Z :=
  FAIL_STUB "link" p target.
Definition exec_mkdir (p : string) (mode : Z) : M Z :=
  FAIL_STUB "mkdir" p mode.
Definition exec_mknod (p : string) (mode dev : Z) : M Z :=
  FAIL_STUB "mknod" p (mode, dev).
Definition exec_readlink (p : string) (buf : list Byte.byte) (size : Z)
  : M Z :=
  FAIL_STUB "readlink" p (buf, size).
Definition exec_releasedir (p : string) (fi : option Fuse.fuse_file_info)
  : M Z :=
  NOP_STUB "releasedir" p fi.
Definition exec_removexattr (p : string) (name : string) : M Z :=
  FAIL_STUB "removexattr" p name.
Definition exec_rename (p : string) (new_name : string) : M Z :=
  FAIL_STUB "rename" p new_name.
Definition exec_rmdir (p : string) : M Z :=
  FAIL_STUB "rmdir" p tt.
Definition exec_setxattr (p : string) (name : string)
           (value : list Byte.byte) (size flags : Z) : M Z :=
  FAIL_STUB "setxattr" p (name, value, size, flags).
Definition exec_symlink (p : string) (target : string) : M Z :=
  FAIL_STUB "symlink" p target.
Definition exec_truncate (p : string) (size : Z) : M Z :=
  NOP_STUB "truncate" p size.
Definition exec_unlink (p : string) : M Z :=
  FAIL_STUB "unlink" p tt.
Definition exec_utime (p : string) (buf : option (Z * Z)) : M Z :=
  NOP_STUB "utime" p buf.
Definition exec_utimens (p : string) (tv : (Z * Z) * (Z * Z)) : M Z :=
  NOP_STUB "utimens" p tv.

End Callbacks.

(** ** The operation table, stub part

    [struct fuse_operations ops] binds each operation name to its callback.
    The two groups of stubs are reached through it with the argument shapes
    below. *)

Inductive fail_call :=
| call_bmap (blocksize idx : Z)
| call_chmod (mode : Z)
| call_chown (uid gid : Z)
| call_link (target : string)
| call_mkdir (mode : Z)
| call_mknod (mode dev : Z)
| call_readlink (buf : list Byte.byte) (size : Z)
| call_removexattr (name : string)
| call_rename (new_name : string)
| call_rmdir
| call_setxattr (name : string) (value : list Byte.byte) (size flags : Z)
| call_symlink (target : string)
| call_unlink.

Inductive nop_call :=
| call_fsyncdir (datasync : Z) (fi : option Fuse.fuse_file_info)
| call_releasedir (fi : option Fuse.fuse_file_info)
| call_truncate (size : Z)
| call_utime (buf : option (Z * Z))
| call_utimens (tv : (Z * Z) * (Z * Z)).

Section Ops.
Context {World : Type} {libc : Libc World}.

Definition ops_fail (c : fail_call) (p : string) : StateM World Z :=
  match c with
  | call_bmap blocksize idx => exec_bmap p blocksize idx
  | call_chmod mode => exec_chmod p mode
  | call_chown u g => exec_chown p u g
  | call_link target => exec_link p target
  | call_mkdir mode => exec_mkdir p mode
  | call_mknod mode dev => exec_mknod p mode dev
  | call_readlink buf sz => exec_readlink p buf sz
  | call_removexattr name => exec_removexattr p name
  | call_rename new_name => exec_rename p new_name
  | call_rmdir => exec_rmdir p
  | call_setxattr name value sz fl => exec_setxattr p name value sz fl
  | call_symlink target => exec_symlink p target
  | call_unlink => exec_unlink p
  end.

Definition ops_nop (c : nop_call) (p : string) : StateM World Z :=
  match c with
  | call_fsyncdir datasync fi => exec_fsyncdir p datasync fi
  | call_releasedir fi => exec_releasedir p fi
  | call_truncate sz => exec_truncate p sz
  | call_utime buf => exec_utime p buf
  | call_utimens tv => exec_utimens p tv
  end.
End Ops.

(** ** A one-pipe operating system

    A small instance of [Libc] to run the callbacks on: a single stream, of
    handle 1 and descriptor 3.  [spawns] tells whether popen can start a
    command, [broken] whether a transfer on the stream meets an OS-level
    failure (it then moves no byte and sets the error indicator). *)

Module OnePipe.
Record world := {
  spawns : bool;
  broken : bool;
  error_indicator : bool;
  pending : list Byte.byte;
  accepted : list Byte.byte;
  clock : Z
}.

Definition EIO : Z := 5.

Definition fail_transfer (w : world) : world :=
  {| spawns := spawns w; broken := broken w; error_indicator := true;
     pending := pending w; accepted := accepted w; clock := clock w |}.

Definition popen (cmd mode : string) (w : world) : Z * world :=
  (if spawns w then 1 else 0, w).

Definition pclose (h : Z) (w : world) : Z * world := (0, w).

Definition fread (h size : Z) (w : world) : list Byte.byte * world :=
  if broken w then ([], fail_transfer w)
  else (firstn (Z.to_nat size) (pending w),
        {| spawns := spawns w; broken := broken w;
           error_indicator := error_indicator w;
           pending := skipn (Z.to_nat size) (pending w);
           accepted := accepted w; clock := clock w |}).

Definition fwrite (h : Z) (buf : list Byte.byte) (size : Z) (w : world)
  : Z * world :=
  if broken w then (0, fail_transfer w)
  else (Z.of_nat (List.length (firstn (Z.to_nat size) buf)),
        {| spawns := spawns w; broken := broken w;
           error_indicator := error_indicator w;
           pending := pending w;
           accepted := accepted w ++ firstn (Z.to_nat size) buf;
           clock := clock w |}).

Definition fflush (h : Z) (w : world) : Z * world :=
  if broken w then (-1, fail_transfer w) else (0, w).

Definition fileno (h : Z) (w : world) : Z := 3.

Definition fsync (fd : Z) (w : world) : Z * world :=
  if broken w then (-1, w) else (0, w).

Definition ferror (h : Z) (w : world) : bool := error_indicator w.

Definition errno (w : world) : Z := if error_indicator w then EIO else 0.

#[global] Instance libc : Libc world :=
  @Build_Libc world popen pclose fread fwrite fflush fileno fsync ferror
              errno clock.
End OnePipe.

(** ** A sample mount

    Two entries: [hello], readable by owner and group, executable by the
    owner; [sink], writable by the owner only.  Mounted by user 1000 of group
    100. *)

Module Sample.
Definition hello : entry_t :=
  {| path := "hello"; command := "echo hello";
     u_r := true; u_w := false; u_x := true;
     g_r := true; g_w := false; g_x := false;
     o_r := false; o_w := false; o_x := false |}.

Definition sink : entry_t :=
  {| path := "sink"; command := "cat > /tmp/sink";
     u_r := false; u_w := true; u_x := false;
     g_r := false; g_w := false; g_x := false;
     o_r := false; o_w := false; o_x := false |}.

Definition mount : globals :=
  {| entries := [hello; sink]; uid := 1000; gid := 100; size := 4096 |}.

Definition owner : Fuse.fuse_context := {| Fuse.uid := 1000; Fuse.gid := 100 |}.
Definition peer : Fuse.fuse_context := {| Fuse.uid := 1001; Fuse.gid := 100 |}.
Definition stranger : Fuse.fuse_context := {| Fuse.uid := 1002; Fuse.gid := 200 |}.

Definition healthy : OnePipe.world :=
  {| OnePipe.spawns := true; OnePipe.broken := false;
     OnePipe.error_indicator := false;
     OnePipe.pending := [Byte.x68; Byte.x65; Byte.x6c; Byte.x6c; Byte.x6f;
                         Byte.x0a];
     OnePipe.accepted := []; OnePipe.clock := 1700000000 |}.

(** No command can be started. *)
Definition exhausted : OnePipe.world :=
  {| OnePipe.spawns := false; OnePipe.broken := false;
     OnePipe.error_indicator := false;
     OnePipe.pending := []; OnePipe.accepted := [];
     OnePipe.clock := 1700000000 |}.

(** The stream of handle 1 is at its end. *)
Definition drained : OnePipe.world :=
  {| OnePipe.spawns := true; OnePipe.broken := false;
     OnePipe.error_indicator := false;
     OnePipe.pending := []; OnePipe.accepted := [];
     OnePipe.clock := 1700000000 |}.

(** The stream of handle 1 fails at the next transfer. *)
Definition failing : OnePipe.world :=
  {| OnePipe.spawns := true; OnePipe.broken := true;
     OnePipe.error_indicator := false;
     OnePipe.pending := [Byte.x68; Byte.x65; Byte.x6c; Byte.x6c; Byte.x6f;
                         Byte.x0a];
     OnePipe.accepted := []; OnePipe.clock := 1700000000 |}.

Definition boot (c : Fuse.fuse_context) (w : OnePipe.world)
  : state OnePipe.world :=
  {| s_globals := mount; s_context := c; s_world := w; s_log := [] |}.

(** [*fi] as it comes with an open request, and once the stream of
    handle 1 is attached. *)
Definition request (fl : Z) : Fuse.fuse_file_info :=
  {| Fuse.flags := fl; Fuse.fh := 0 |}.
Definition handle (fl : Z) : Fuse.fuse_file_info :=
  {| Fuse.flags := fl; Fuse.fh := 1 |}.
End Sample.

(** ** The vocabulary of the properties *)

(** [i] is the least index of [l] whose element satisfies [f]. *)
Definition first_at (A : Type) (f : A -> bool) (l : list A) (i : nat)
           (a : A) : Prop :=
  nth_error l i = Some a /\ f a = true /\
  forall j b, (j < i)%nat -> nth_error l j = Some b -> f b = false.

(** The entry of index [i] is the first one of the table stored under the
    path [key]. *)
Definition first_entry (g : globals) (key : string) (i : nat) (e : entry_t)
  : Prop :=
  nth_error (entries g) i = Some e /\ path e = key /\
  forall j e', (j < i)%nat -> nth_error (entries g) j = Some e' ->
               path e' <> key.

(** The test exec_open applies to a rights word: [rights & bit] is set. *)
Definition has_right (rights bit : Z) : bool := negb (Z.land rights bit =? 0).

(** A rights word read back as (read, write, execute). *)
Definition rights_triple (rights : Z) : bool * bool * bool :=
  (has_right rights R, has_right rights W, has_right rights X).

Definition owner_bits (e : entry_t) : bool * bool * bool := (u_r e, u_w e, u_x e).
Definition group_bits (e : entry_t) : bool * bool * bool := (g_r e, g_w e, g_x e).
Definition other_bits (e : entry_t) : bool * bool * bool := (o_r e, o_w e, o_x e).

Inductive open_mode := ReadOnly | WriteOnly | ReadWrite.

(** The access mode as it arrives in [fi->flags]. *)
Definition mode_flag (m : open_mode) : Z :=
  match m with
  | ReadOnly => Fcntl.O_RDONLY
  | WriteOnly => Fcntl.O_WRONLY
  | ReadWrite => Fcntl.O_RDWR
  end.

(** The rights a mode asks for: the read bit for read-only and read-write,
    the write bit for write-only and read-write. *)
Definition mode_bits (m : open_mode) : Z :=
  match m with
  | ReadOnly => R
  | WriteOnly => W
  | ReadWrite => Z.lor R W
  end.

Definition superset (rights bits : Z) : bool := Z.land rights bits =? bits.

(** The direction exec_open hands to popen. *)
Definition pipe_direction (m : open_mode) : string :=
  if mode_flag m =? Fcntl.O_RDONLY then "r" else "w".

(** An entry with other execute bits. *)
Definition set_exec (x : bool * bool * bool) (e : entry_t) : entry_t :=
  {| path := path e; command := command e;
     u_r := u_r e; u_w := u_w e; u_x := fst (fst x);
     g_r := g_r e; g_w := g_w e; g_x := snd (fst x);
     o_r := o_r e; o_w := o_w e; o_x := snd x |}.

(** The same mount with the execute bits of every entry replaced. *)
Definition with_exec (World : Type) (fx : entry_t -> bool * bool * bool)
           (s : state World) : state World :=
  {| s_globals :=
       {| entries := map (fun e => set_exec (fx e) e) (entries (s_globals s));
          uid := uid (s_globals s); gid := gid (s_globals s);
          size := size (s_globals s) |};
     s_context := s_context s; s_world := s_world s; s_log := s_log s |}.

Section OpenResult.
Context {World : Type} {libc : Libc World}.

(** The return value of exec_open, case by case. *)
Definition open_result (s : state World) (p : string) (m : open_mode) : Z :=
  match find_entry (s_globals s) p with
  | None => - Errno.ENOENT
  | Some e =>
      if superset (fst (access_rights e s)) (mode_bits m) then
        if fst (popen (command e) (pipe_direction m) (s_world s)) =? 0
        then - Errno.EBADF
        else 0
      else - Errno.EACCES
  end.
End OpenResult.

(** A callback that never refuses: it appends the name to the listing. *)
Definition collect (listing : list string) (name : string)
           (stbuf : option Stat.stat) (off : Z) : Z * list string :=
  (0, (listing ++ [name])%list).

(** A callback with room for [cap] names; it answers 1 once full. *)
Definition bounded (cap : nat) (listing : list string) (name : string)
           (stbuf : option Stat.stat) (off : Z) : Z * list string :=
  if (List.length listing <? cap)%nat then (0, (listing ++ [name])%list)
  else (1, listing).

(** The listing in the spec's words, paging included: the entries are
    handed to the callback in table order, each with the index that
    follows it, until the callback refuses one. *)
Fixpoint emit (B : Type)
         (filler : B -> string -> option Stat.stat -> Z -> Z * B)
         (es : list entry_t) (off : Z) (buf : B) : B :=
  match es with
  | [] => buf
  | e :: es' =>
      let (r, buf') := filler buf (path e) None off in
      if r =? 0 then emit filler es' (off + 1) buf' else buf'
  end.

(** The nine permission bits of a mode, class by class.  Inside a class the
    bits lie as [R], [W], [X] do. *)
Definition mode_triples (mode : Z)
  : (bool * bool * bool) * (bool * bool * bool) * (bool * bool * bool) :=
  (rights_triple (Z.shiftr mode 6), rights_triple (Z.shiftr mode 3),
   rights_triple mode).

(** The bits of a mode above the nine permission bits and below the file
    type: set-user-id, set-group-id, sticky. *)
Definition special_bits (mode : Z) : Z := Z.land mode 3584.

(** The mode word exec_getattr reports for root and for an entry. *)
Definition root_mode : Z :=
  Z.lor (Z.lor (Z.lor (Z.lor (Z.lor (Z.lor
    Stat.S_IFDIR Stat.S_IRUSR) Stat.S_IXUSR)
    Stat.S_IRGRP) Stat.S_IXGRP)
    Stat.S_IROTH) Stat.S_IXOTH.

Definition entry_mode (e : entry_t) : Z :=
  Z.lor (Z.lor (Z.lor (Z.lor (Z.lor (Z.lor
    (Z.lor (Z.lor (Z.lor
    Stat.S_IFREG
    (if u_r e then Stat.S_IRUSR else 0))
    (if u_w e then Stat.S_IWUSR else 0))
    (if u_x e then Stat.S_IXUSR else 0))
    (if g_r e then Stat.S_IRGRP else 0))
    (if g_w e then Stat.S_IWGRP else 0))
    (if g_x e then Stat.S_IXGRP else 0))
    (if o_r e then Stat.S_IROTH else 0))
    (if o_w e then Stat.S_IWOTH else 0))
    (if o_x e then Stat.S_IXOTH else 0).

(** ** Further vocabulary: sessions, paging, frames *)

(** A state with another world, and with lines added to its log. *)
Definition set_world (World : Type) (s : state World) (w : World)
  : state World :=
  {| s_globals := s_globals s; s_context := s_context s;
     s_world := w; s_log := s_log s |}.

(** The callbacks leave the mount as it is: the same globals, the same
    caller, a log that only grows. *)
Definition same_mount (World : Type) (s s' : state World) : Prop :=
  s_globals s' = s_globals s /\
  s_context s' = s_context s /\
  exists lines, s_log s' = (s_log s ++ lines)%list.

(** The test of exec_open on the access mode [rights] of the request and
    the rights of the caller. *)
Definition open_denied (rights entry_rights : Z) : bool :=
  ((rights =? Fcntl.O_RDONLY) || (rights =? Fcntl.O_RDWR))
    && (Z.land entry_rights R =? 0)
  || ((rights =? Fcntl.O_WRONLY) || (rights =? Fcntl.O_RDWR))
       && (Z.land entry_rights W =? 0).

(** The direction exec_open hands to popen for an access mode. *)
Definition direction_of (rights : Z) : string :=
  if rights =? Fcntl.O_RDONLY then "r" else "w".

(** The triple of the class the caller falls in. *)
Definition class_bits (World : Type) (s : state World) (e : entry_t)
  : bool * bool * bool :=
  if Fuse.uid (s_context s) =? uid (s_globals s) then owner_bits e
  else if Fuse.gid (s_context s) =? gid (s_globals s) then group_bits e
       else other_bits e.

(** [fi] is [NULL] or holds no stream. *)
Definition no_stream (fi : option Fuse.fuse_file_info) : bool :=
  match fi with
  | None => true
  | Some info => Fuse.fh info =? 0
  end.

(** A callback of the transport with room for [cap] directory entries: it
    keeps the name with the offset it is given, and answers 1, keeping
    nothing, once full. *)
Definition page (cap : nat) (listing : list (string * Z)) (name : string)
           (stbuf : option Stat.stat) (off : Z) : Z * list (string * Z) :=
  if (List.length listing <? cap)%nat then (0, (listing ++ [(name, off)])%list)
  else (1, listing).

(** The entries with the offsets that follow them, from offset [off]. *)
Fixpoint numbered (es : list entry_t) (off : Z) : list (string * Z) :=
  match es with
  | [] => []
  | e :: es' => (path e, off) :: numbered es' (off + 1)
  end.

(** Where the transport resumes after a page: at the offset kept with the
    last entry, or at the start index again when the page is empty. *)
Definition next_offset (k : Z) (listing : list (string * Z)) : Z :=
  last (map snd listing) k.

(** The page one readdir call on root leaves in an empty buffer of room
    [cap], from start index [k]. *)
Definition readdir_page (World : Type) (s : state World) (cap : nat) (k : Z)
  : list (string * Z) :=
  snd (fst (exec_readdir "/" [] (page cap) k None s)).

(** * Properties *)

(** ** Basic facts on strings *)

Lemma uchar_inj c1 c2 : uchar c1 = uchar c2 -> c1 = c2.
Proof.
  unfold uchar. intros H. apply N2Z.inj in H.
  rewrite <- (ascii_N_embedding c1), <- (ascii_N_embedding c2). now rewrite H.
Qed.

Lemma strcmp_refl s : strcmp s s = 0.
Proof.
  induction s as [|c s IH]; simpl; [reflexivity|].
  rewrite Z.ltb_irrefl. exact IH.
Qed.

Lemma strcmp_eq s1 : forall s2, strcmp s1 s2 = 0 <-> s1 = s2.
Proof.
  induction s1 as [|c1 r1 IH]; intros [|c2 r2]; simpl; split; intros H;
    try reflexivity; try discriminate.
  - destruct (Z.ltb_spec (uchar c1) (uchar c2)); [discriminate|].
    destruct (Z.ltb_spec (uchar c2) (uchar c1)); [discriminate|].
    apply IH in H. subst r2.
    assert (c1 = c2) by (apply uchar_inj; lia). now subst.
  - injection H as -> ->. rewrite Z.ltb_irrefl. apply strcmp_refl.
Qed.

Lemma strcmp_eqb s1 s2 : (strcmp s1 s2 =? 0) = String.eqb s1 s2.
Proof.
  destruct (String.eqb_spec s1 s2) as [->|Hne].
  - rewrite strcmp_refl. reflexivity.
  - apply Z.eqb_neq. intros H. apply Hne. now apply strcmp_eq.
Qed.

Lemma is_root_iff p : is_root p = true <-> p = "/".
Proof.
  unfold is_root. rewrite Z.eqb_eq, strcmp_eq.
  split; intros H; now subst.
Qed.

(** ** The lookup loop against the entry table *)

Section FirstMatch.
Variable A : Type.
Variable f : A -> bool.

Lemma find_first_at l a :
  find f l = Some a <-> exists i, first_at f l i a.
Proof.
  induction l as [|x l IH]; simpl.
  - split; [discriminate|]. intros [i [H _]]. destruct i; discriminate.
  - destruct (f x) eqn:Hx.
    + split.
      * intros [= ->]. exists 0%nat. repeat split; auto.
        intros j b Hj. lia.
      * intros [i (Hn & Ha & Hlt)]. destruct i as [|i].
        -- simpl in Hn. congruence.
        -- specialize (Hlt 0%nat x (Nat.lt_0_succ i) eq_refl). congruence.
    + rewrite IH. split.
      * intros [i (Hn & Ha & Hlt)]. exists (S i). repeat split; auto.
        intros [|j] b Hj Hb; simpl in Hb.
        -- congruence.
        -- apply (Hlt j); [lia|exact Hb].
      * intros [i (Hn & Ha & Hlt)]. destruct i as [|i].
        -- simpl in Hn. congruence.
        -- exists i. repeat split; auto.
           intros j b Hj Hb. apply (Hlt (S j)); [lia|exact Hb].
Qed.

Lemma find_none_iff l :
  find f l = None <-> forall a, In a l -> f a = false.
Proof.
  split.
  - intros H a Ha. exact (find_none f l H a Ha).
  - intros H. destruct (find f l) as [a|] eqn:E; [|reflexivity].
    apply find_some in E. destruct E as [Hin Hf].
    rewrite (H a Hin) in Hf. discriminate.
Qed.
End FirstMatch.

Lemma skipn_cons_nth (A : Type) (l : list A) k a :
  nth_error l k = Some a -> skipn k l = a :: skipn (S k) l.
Proof.
  revert k. induction l as [|x l IH]; intros [|k] H; simpl in *;
    try discriminate.
  - congruence.
  - now apply IH.
Qed.

Lemma entries_at_nat g k : entries_at g (Z.of_nat k) = nth_error (entries g) k.
Proof.
  unfold entries_at. destruct (Z.ltb_spec (Z.of_nat k) 0); [lia|].
  now rewrite Nat2Z.id.
Qed.

(** With at least [entries_sz - i] iterations allowed the loop is the
    left-to-right search of the table from index [i]. *)
Lemma find_entry_loop_find g key :
  forall fuel k, (List.length (entries g) <= k + fuel)%nat ->
    find_entry_loop g key fuel (Z.of_nat k)
    = find (fun e => strcmp key (path e) =? 0) (skipn k (entries g)).
Proof.
  induction fuel as [|fuel IH]; intros k Hk; simpl.
  - rewrite skipn_all2 by lia. reflexivity.
  - unfold entries_sz. destruct (Z.ltb_spec (Z.of_nat k)
                                  (Z.of_nat (List.length (entries g)))) as [Hlt|Hge].
    + rewrite entries_at_nat.
      destruct (nth_error (entries g) k) as [e|] eqn:He.
      * rewrite (skipn_cons_nth _ _ He). simpl.
        destruct (strcmp key (path e) =? 0); [reflexivity|].
        replace (Z.of_nat k + 1) with (Z.of_nat (S k)) by lia.
        apply IH. lia.
      * apply nth_error_None in He. lia.
    + rewrite skipn_all2 by lia. reflexivity.
Qed.

Lemma find_entry_slash g rest :
  find_entry g (String "/" rest)
  = find (fun e => strcmp rest (path e) =? 0) (entries g).
Proof.
  unfold find_entry. simpl.
  apply (find_entry_loop_find g rest (List.length (entries g)) 0). lia.
Qed.

Lemma find_entry_no_slash g p :
  (forall rest, p <> String "/" rest) -> find_entry g p = None.
Proof.
  intros H. destruct p as [|c rest]; [reflexivity|]. simpl.
  destruct (Ascii.eqb_spec c "/") as [->|Hc]; [|reflexivity].
  now destruct (H rest).
Qed.

(** The iteration bound never cuts the search short. *)
Lemma find_entry_loop_fuel g key fuel1 fuel2 k :
  (List.length (entries g) <= k + fuel1)%nat ->
  (List.length (entries g) <= k + fuel2)%nat ->
  find_entry_loop g key fuel1 (Z.of_nat k)
  = find_entry_loop g key fuel2 (Z.of_nat k).
Proof.
  intros H1 H2. now rewrite !find_entry_loop_find.
Qed.

Lemma find_entry_in g p e : find_entry g p = Some e -> In e (entries g).
Proof.
  destruct p as [|c rest]; [discriminate|].
  destruct (Ascii.eqb_spec c "/") as [->|Hc].
  - rewrite find_entry_slash. intros H. now apply find_some in H.
  - simpl. destruct (Ascii.eqb_spec c "/"); [contradiction|discriminate].
Qed.

Lemma find_entry_first g rest e :
  find_entry g (String "/" rest) = Some e <-> exists i, first_entry g rest i e.
Proof.
  rewrite find_entry_slash, find_first_at. unfold first_at, first_entry.
  split; intros [i (Hn & He & Hlt)]; exists i; repeat split; auto.
  - apply Z.eqb_eq, strcmp_eq in He. now subst.
  - intros j e' Hj He' Heq. specialize (Hlt j e' Hj He').
    apply Z.eqb_neq in Hlt. apply Hlt. apply strcmp_eq. now subst.
  - apply Z.eqb_eq, strcmp_eq. now subst.
  - intros j e' Hj He'. apply Z.eqb_neq. intros Heq. apply strcmp_eq in Heq.
    apply (Hlt j e' Hj He'). now subst.
Qed.

Lemma find_entry_none g rest :
  find_entry g (String "/" rest) = None
  <-> forall e, In e (entries g) -> path e <> rest.
Proof.
  rewrite find_entry_slash, find_none_iff. split; intros H e He.
  - intros Heq. specialize (H e He). apply Z.eqb_neq in H. apply H.
    apply strcmp_eq. now subst.
  - apply Z.eqb_neq. intros Heq. apply strcmp_eq in Heq.
    apply (H e He). now subst.
Qed.

(** ** Path resolution *)

Lemma resolve_root g p : resolve g p = Root <-> p = "/".
Proof.
  unfold resolve. destruct (is_root p) eqn:E.
  - apply is_root_iff in E. split; auto.
  - split.
    + destruct (find_entry g p); discriminate.
    + intros ->. rewrite (proj2 (is_root_iff "/") eq_refl) in E. discriminate.
Qed.

Lemma resolve_find g p :
  p <> "/" ->
  resolve g p = match find_entry g p with
                | Some e => Entry e
                | None => NotFound
                end.
Proof.
  intros H. unfold resolve. destruct (is_root p) eqn:E; [|reflexivity].
  apply is_root_iff in E. contradiction.
Qed.

(** C3.  Resolution gives [Root] exactly on the root designator ["/"]; a
    path that does not begin with the separator is [NotFound]; any other
    path gives the first entry of the table, in table order, whose stored
    path equals the request path without its leading separator, and
    [NotFound] when no entry has that stored path. *)
Theorem resolve_by_exact_match (g : globals) (p : string) :
  (resolve g p = Root <-> p = "/") /\
  ((forall rest, p <> String "/" rest) -> resolve g p = NotFound) /\
  (forall rest, p = String "/" rest -> p <> "/" ->
     (forall e, resolve g p = Entry e <-> exists i, first_entry g rest i e) /\
     (resolve g p = NotFound
      <-> forall e, In e (entries g) -> path e <> rest)).
Proof.
  split; [apply resolve_root|]. split.
  - intros H. rewrite resolve_find.
    + now rewrite (find_entry_no_slash g H).
    + intros ->. now apply (H "").
  - intros rest -> Hne. rewrite (resolve_find g Hne). split.
    + intros e. rewrite <- find_entry_first.
      destruct (find_entry g (String "/" rest)) as [e'|]; split;
        intros H; try discriminate; congruence.
    + rewrite <- find_entry_none.
      destruct (find_entry g (String "/" rest)); split; intros H;
        try discriminate; reflexivity.
Qed.

Lemma resolve_by_exact_match_witness :
  resolve Sample.mount "/" = Root /\
  resolve Sample.mount "sink" = NotFound /\
  resolve Sample.mount "/sink" = Entry Sample.sink /\
  resolve Sample.mount "/none" = NotFound.
Proof.
  split; [apply (proj1 (resolve_by_exact_match Sample.mount "/")); reflexivity|].
  split.
  { apply (proj1 (proj2 (resolve_by_exact_match Sample.mount "sink"))).
    intros rest H. discriminate H. }
  split.
  - destruct (proj2 (proj2 (resolve_by_exact_match Sample.mount "/sink"))
                    "sink" eq_refl) as [H _].
    { intros H. discriminate H. }
    apply H. exists 1%nat. repeat split; try reflexivity.
    intros j e' Hj He'. assert (j = 0%nat) by lia. subst j.
    injection He' as <-. intros H0. discriminate H0.
  - destruct (proj2 (proj2 (resolve_by_exact_match Sample.mount "/none"))
                    "none" eq_refl) as [_ H].
    { intros H. discriminate H. }
    apply H. intros e [<-|[<-|[]]] H0; discriminate H0.
Defined.

(** ** Access rights *)

Section AccessRights.
Context {World : Type} {libc : Libc World}.

Lemma access_rights_state (e : entry_t) (s : state World) :
  snd (access_rights e s) = s.
Proof.
  unfold access_rights, bind, fuse_get_context, get_globals, ret. simpl.
  destruct (Fuse.uid (s_context s) =? uid (s_globals s));
    [reflexivity|].
  destruct (Fuse.gid (s_context s) =? gid (s_globals s)); reflexivity.
Qed.

Lemma access_rights_triple (e : entry_t) (s : state World) :
  rights_triple (fst (access_rights e s))
  = if Fuse.uid (s_context s) =? uid (s_globals s) then owner_bits e
    else if Fuse.gid (s_context s) =? gid (s_globals s) then group_bits e
         else other_bits e.
Proof.
  unfold access_rights, bind, fuse_get_context, get_globals, ret. simpl.
  destruct (Fuse.uid (s_context s) =? uid (s_globals s)).
  - unfold owner_bits. simpl.
    destruct (u_r e), (u_w e), (u_x e); reflexivity.
  - destruct (Fuse.gid (s_context s) =? gid (s_globals s)).
    + unfold group_bits. simpl.
      destruct (g_r e), (g_w e), (g_x e); reflexivity.
    + unfold other_bits. simpl.
      destruct (o_r e), (o_w e), (o_x e); reflexivity.
Qed.

(** C2.  The rights computed for an entry and a caller are the entry's
    owner triple when the caller's uid is the mount uid; otherwise the
    group triple when the caller's gid is the mount gid; otherwise the
    other triple.  The four combinations of (uid match, gid match) are
    spelled out; computing the rights changes nothing. *)
Theorem access_rights_first_rule (e : entry_t) (s : state World) :
  snd (access_rights e s) = s /\
  rights_triple (fst (access_rights e s))
  = match Fuse.uid (s_context s) =? uid (s_globals s),
          Fuse.gid (s_context s) =? gid (s_globals s) with
    | true, true => owner_bits e
    | true, false => owner_bits e
    | false, true => group_bits e
    | false, false => other_bits e
    end.
Proof.
  split; [apply access_rights_state|].
  rewrite access_rights_triple.
  destruct (Fuse.uid (s_context s) =? uid (s_globals s)),
           (Fuse.gid (s_context s) =? gid (s_globals s)); reflexivity.
Qed.
End AccessRights.

(** ** open *)

Lemma find_map (A : Type) (f : A -> bool) (h : A -> A) (l : list A) :
  (forall a, f (h a) = f a) ->
  find f (map h l) = option_map h (find f l).
Proof.
  intros Hf. induction l as [|a l IH]; simpl; [reflexivity|].
  rewrite Hf. destruct (f a); [reflexivity|exact IH].
Qed.

Lemma find_entry_map g p (h : entry_t -> entry_t) :
  (forall e, path (h e) = path e) ->
  find_entry {| entries := map h (entries g); uid := uid g; gid := gid g;
                size := size g |} p
  = option_map h (find_entry g p).
Proof.
  intros Hh. destruct p as [|c rest]; [reflexivity|].
  destruct (Ascii.eqb_spec c "/") as [->|Hc].
  - rewrite !find_entry_slash. simpl. apply find_map.
    intros e. now rewrite Hh.
  - simpl. destruct (Ascii.eqb_spec c "/"); [contradiction|reflexivity].
Qed.

Section Open.
Context {World : Type} {libc : Libc World}.

Lemma access_rights_value (e : entry_t) (s : state World) :
  exists a b c : bool,
    fst (access_rights e s)
    = Z.lor (Z.lor (if a then R else 0) (if b then W else 0))
            (if c then X else 0).
Proof.
  unfold access_rights, bind, fuse_get_context, get_globals, ret. simpl.
  destruct (Fuse.uid (s_context s) =? uid (s_globals s)).
  - now exists (u_r e), (u_w e), (u_x e).
  - destruct (Fuse.gid (s_context s) =? gid (s_globals s)).
    + now exists (g_r e), (g_w e), (g_x e).
    + now exists (o_r e), (o_w e), (o_x e).
Qed.

Lemma exec_open_result (s : state World) (p : string)
      (info : Fuse.fuse_file_info) (m : open_mode) :
  Z.land (Fuse.flags info) RIGHTS_MASK = mode_flag m ->
  fst (fst (exec_open p (Some info) s)) = open_result s p m.
Proof.
  intros Hm. unfold exec_open, open_result, bind, get_globals, ret. simpl.
  destruct (find_entry (s_globals s) p) as [e|]; [|reflexivity].
  pose proof (access_rights_state e s) as Hs.
  destruct (access_rights_value e s) as (a & b & c & Hr).
  destruct (access_rights e s) as [r s']. simpl in Hs, Hr. subst s' r.
  rewrite Hm. unfold pipe_direction, call, LOG.
  destruct m, a, b, c; simpl;
    match goal with
    | |- context [popen ?c ?d ?w] => destruct (popen c d w) as [h w']
    | _ => idtac
    end; simpl; try reflexivity;
    destruct (h =? 0); reflexivity.
Qed.

Lemma superset_set_exec (fx : entry_t -> bool * bool * bool)
      (x : bool * bool * bool) (e : entry_t) (s : state World)
      (m : open_mode) :
  superset (fst (access_rights (set_exec x e) (with_exec fx s)))
           (mode_bits m)
  = superset (fst (access_rights e s)) (mode_bits m).
Proof.
  unfold access_rights, bind, fuse_get_context, get_globals, ret. simpl.
  destruct x as [[ux gx] ox]. simpl.
  destruct (Fuse.uid (s_context s) =? uid (s_globals s)).
  - destruct (u_r e), (u_w e), (u_x e), ux, m; reflexivity.
  - destruct (Fuse.gid (s_context s) =? gid (s_globals s)).
    + destruct (g_r e), (g_w e), (g_x e), gx, m; reflexivity.
    + destruct (o_r e), (o_w e), (o_x e), ox, m; reflexivity.
Qed.

Lemma open_result_with_exec (fx : entry_t -> bool * bool * bool)
      (s : state World) (p : string) (m : open_mode) :
  open_result (with_exec fx s) p m = open_result s p m.
Proof.
  unfold open_result. simpl.
  rewrite (find_entry_map (s_globals s) p (fun e => set_exec (fx e) e))
    by reflexivity.
  destruct (find_entry (s_globals s) p) as [e|]; simpl; [|reflexivity].
  now rewrite superset_set_exec.
Qed.

(** C1, amended.  For every path and every requested mode among read-only,
    write-only and read-write, open succeeds exactly when the entry lookup
    finds the path, the caller's rights include the bits of the mode, and
    popen starts the entry's command.  It fails with [ENOENT] exactly when
    the lookup finds nothing, with [EACCES] exactly when the rights lack a
    bit of the mode, and with [EBADF] exactly when the command cannot be
    started.  The execute bits of the entries have no influence on the
    outcome.  For every path but the root designator, the lookup finding
    an entry is the path resolving to that entry. *)
Theorem exec_open_outcome (s : state World) (p : string)
        (info : Fuse.fuse_file_info) (m : open_mode) :
  Z.land (Fuse.flags info) RIGHTS_MASK = mode_flag m ->
  (fst (fst (exec_open p (Some info) s)) = 0
   <-> exists e,
       find_entry (s_globals s) p = Some e /\
       superset (fst (access_rights e s)) (mode_bits m) = true /\
       fst (popen (command e) (pipe_direction m) (s_world s)) <> 0) /\
  (fst (fst (exec_open p (Some info) s)) = - Errno.ENOENT
   <-> find_entry (s_globals s) p = None) /\
  (fst (fst (exec_open p (Some info) s)) = - Errno.EACCES
   <-> exists e,
       find_entry (s_globals s) p = Some e /\
       superset (fst (access_rights e s)) (mode_bits m) = false) /\
  (fst (fst (exec_open p (Some info) s)) = - Errno.EBADF
   <-> exists e,
       find_entry (s_globals s) p = Some e /\
       superset (fst (access_rights e s)) (mode_bits m) = true /\
       fst (popen (command e) (pipe_direction m) (s_world s)) = 0) /\
  (forall fx,
      fst (fst (exec_open p (Some info) (with_exec fx s)))
      = fst (fst (exec_open p (Some info) s))) /\
  (p <> "/" ->
   forall e, find_entry (s_globals s) p = Some e
             <-> resolve (s_globals s) p = Entry e).
Proof.
  intros Hm.
  assert (Hx : forall fx,
             fst (fst (exec_open p (Some info) (with_exec fx s)))
             = fst (fst (exec_open p (Some info) s))).
  { intros fx. rewrite !(@exec_open_result _ p info m Hm).
    apply open_result_with_exec. }
  assert (Hres : p <> "/" ->
                 forall e, find_entry (s_globals s) p = Some e
                           <-> resolve (s_globals s) p = Entry e).
  { intros Hp e. rewrite (resolve_find (s_globals s) Hp).
    destruct (find_entry (s_globals s) p); split; intros H;
      try discriminate; congruence. }
  split; [|split; [|split; [|split; [|split; [exact Hx|exact Hres]]]]];
    clear Hx Hres;
    rewrite (@exec_open_result s p info m Hm); unfold open_result;
    (destruct (find_entry (s_globals s) p) as [e|];
     [destruct (superset (fst (access_rights e s)) (mode_bits m)) eqn:Hsup;
      [destruct (Z.eqb_spec
                   (fst (popen (command e) (pipe_direction m) (s_world s)))
                   0) as [Hp|Hp]|]|]);
    split; try discriminate; auto;
    try (intros _; exists e; now auto);
    try (intros (e' & He' & Hrest); injection He' as <-;
         destruct Hrest; congruence);
    try (intros (e' & He' & Hrest); injection He' as <-; congruence);
    try (intros (e' & He' & _); discriminate).
Qed.
End Open.

Lemma exec_open_outcome_witness :
  Z.land (Fuse.flags (Sample.request Fcntl.O_WRONLY)) RIGHTS_MASK
  = mode_flag WriteOnly /\
  fst (fst (exec_open "/sink" (Some (Sample.request Fcntl.O_WRONLY))
                      (Sample.boot Sample.owner Sample.healthy))) = 0 /\
  fst (fst (exec_open "/sink" (Some (Sample.request Fcntl.O_WRONLY))
                      (Sample.boot Sample.peer Sample.healthy)))
  = - Errno.EACCES.
Proof.
  split; [reflexivity|]. split.
  - apply (proj1 (@exec_open_outcome _ _
                    (Sample.boot Sample.owner Sample.healthy)
                    "/sink" (Sample.request Fcntl.O_WRONLY) WriteOnly
                    eq_refl)).
    exists Sample.sink. repeat split. discriminate.
  - apply (proj1 (proj2 (proj2
             (@exec_open_outcome _ _
                (Sample.boot Sample.peer Sample.healthy)
                "/sink" (Sample.request Fcntl.O_WRONLY) WriteOnly
                eq_refl)))).
    exists Sample.sink. repeat split.
Defined.

(** The claim as the spec states it leaves the start of the command out:
    open succeeds if and only if the path resolves to an entry whose rights
    include the bits of the mode.  When no command can be started the path
    resolves, the rights suffice, and open fails, with [EBADF]. *)
Lemma exec_open_spawn_failure :
  resolve Sample.mount "/hello" = Entry Sample.hello /\
  superset (fst (access_rights Sample.hello
                   (Sample.boot Sample.owner Sample.exhausted)))
           (mode_bits ReadOnly) = true /\
  fst (fst (exec_open "/hello" (Some (Sample.request Fcntl.O_RDONLY))
                      (Sample.boot Sample.owner Sample.exhausted)))
  = - Errno.EBADF /\
  ~ (fst (fst (exec_open "/hello" (Some (Sample.request Fcntl.O_RDONLY))
                         (Sample.boot Sample.owner Sample.exhausted))) = 0
     <-> exists e,
         resolve Sample.mount "/hello" = Entry e /\
         superset (fst (access_rights e
                          (Sample.boot Sample.owner Sample.exhausted)))
                  (mode_bits ReadOnly) = true).
Proof.
  repeat split.
  intros [_ H].
  assert (H0 : fst (fst (exec_open "/hello"
                           (Some (Sample.request Fcntl.O_RDONLY))
                           (Sample.boot Sample.owner Sample.exhausted))) = 0).
  { apply H. exists Sample.hello. split; reflexivity. }
  discriminate H0.
Qed.

(** ** read and write *)

Lemma to_int_small z : - 2 ^ 31 <= z <= INT_MAX -> to_int z = z.
Proof.
  unfold to_int, INT_MAX. intros H.
  rewrite Z.mod_small by lia. lia.
Qed.

Section Transfer.
Context {World : Type} {libc : Libc World}.

(** On a handle with a stream, exec_read returns the count of fread,
    whatever the state of the stream after the call. *)
Lemma exec_read_result (s : state World) (p : string)
      (buf : list Byte.byte) (size offset : Z)
      (info : Fuse.fuse_file_info) :
  Fuse.fh info <> 0 ->
  fst (exec_read p buf size offset (Some info) s)
  = (to_int (Z.of_nat (List.length
                         (fst (fread (Fuse.fh info) size (s_world s))))),
     store (fst (fread (Fuse.fh info) size (s_world s))) buf).
Proof.
  intros Hfh. unfold exec_read, bind, call, observe, LOG, ret.
  destruct (Z.eqb_spec (Fuse.fh info) 0) as [E|_]; [contradiction|].
  simpl. destruct (fread (Fuse.fh info) size (s_world s)) as [data w].
  simpl. destruct (Z.of_nat (List.length data) =? SIZE_MAX); reflexivity.
Qed.

(** No value fread can return makes exec_read report a failure: below
    [2^31] bytes the result is the count, never a negative error code. *)
Lemma exec_read_never_negative (s : state World) (p : string)
      (buf : list Byte.byte) (size offset : Z)
      (info : Fuse.fuse_file_info) :
  Fuse.fh info <> 0 ->
  Z.of_nat (List.length (fst (fread (Fuse.fh info) size (s_world s))))
  <= INT_MAX ->
  0 <= fst (fst (exec_read p buf size offset (Some info) s)).
Proof.
  intros Hfh Hlen. rewrite (@exec_read_result s p buf size offset info Hfh).
  simpl. rewrite to_int_small; lia.
Qed.

(** On a handle with a stream, exec_write returns the count of fwrite. *)
Lemma exec_write_result (s : state World) (p : string)
      (buf : list Byte.byte) (size offset : Z)
      (info : Fuse.fuse_file_info) :
  Fuse.fh info <> 0 ->
  fst (exec_write p buf size offset (Some info) s)
  = to_int (fst (fwrite (Fuse.fh info) buf size (s_world s))).
Proof.
  intros Hfh. unfold exec_write, bind, call, observe, LOG, ret.
  destruct (Z.eqb_spec (Fuse.fh info) 0) as [E|_]; [contradiction|].
  simpl. destruct (fwrite (Fuse.fh info) buf size (s_world s)) as [sz w].
  simpl. destruct (sz =? SIZE_MAX); reflexivity.
Qed.
End Transfer.

(** C4.  read returns a byte count, zero for end of stream, and the claim
    has it fail with an I/O error on an OS-level failure of the stream.  On
    the stream that fails at the next transfer, fread stores nothing and
    sets the error indicator; exec_read returns the count, 0, which is its
    answer at end of stream as well: the failure is not reported.  The test
    [sz == -1] meant to catch it compares a count of fread, which is never
    [(size_t)-1]. *)
Theorem exec_read_failure_unreported :
  fst (fst (exec_read "/hello" [] 4096 0
                      (Some (Sample.handle Fcntl.O_RDONLY))
                      (Sample.boot Sample.owner Sample.failing))) = 0 /\
  ferror 1 (s_world (snd (exec_read "/hello" [] 4096 0
                            (Some (Sample.handle Fcntl.O_RDONLY))
                            (Sample.boot Sample.owner Sample.failing))))
  = true /\
  fst (fst (exec_read "/hello" [] 4096 0
                      (Some (Sample.handle Fcntl.O_RDONLY))
                      (Sample.boot Sample.owner Sample.drained))) = 0 /\
  ferror 1 (s_world (snd (exec_read "/hello" [] 4096 0
                            (Some (Sample.handle Fcntl.O_RDONLY))
                            (Sample.boot Sample.owner Sample.drained))))
  = false /\
  fst (exec_read "/hello" [] 4 0
                 (Some (Sample.handle Fcntl.O_RDONLY))
                 (Sample.boot Sample.owner Sample.healthy))
  = (4, [Byte.x68; Byte.x65; Byte.x6c; Byte.x6c]).
Proof.
  repeat split.
Qed.

(** C5.  write returns the count of bytes the stream accepted, and the
    claim has it fail with an I/O error on an OS-level failure such as a
    broken pipe.  On the stream that fails at the next transfer, fwrite
    accepts nothing and sets the error indicator; exec_write returns the
    count, 0, and reports no failure.  The test [sz == -1] meant to catch it
    compares a count of fwrite, which is never [(size_t)-1]. *)
Theorem exec_write_failure_unreported :
  fst (exec_write "/sink" [Byte.x68; Byte.x69] 2 0
                  (Some (Sample.handle Fcntl.O_WRONLY))
                  (Sample.boot Sample.owner Sample.failing)) = 0 /\
  ferror 1 (s_world (snd (exec_write "/sink" [Byte.x68; Byte.x69] 2 0
                             (Some (Sample.handle Fcntl.O_WRONLY))
                             (Sample.boot Sample.owner Sample.failing))))
  = true /\
  fst (exec_write "/sink" [Byte.x68; Byte.x69] 2 0
                  (Some (Sample.handle Fcntl.O_WRONLY))
                  (Sample.boot Sample.owner Sample.healthy)) = 2.
Proof.
  repeat split.
Qed.

(** ** readdir *)

Section Readdir.
Context {World : Type} {libc : Libc World}.
Variable B : Type.
Variable filler : B -> string -> option Stat.stat -> Z -> Z * B.

(** With at least [entries_sz - i] iterations allowed the loop returns 0
    and has emitted the table from index [i]. *)
Lemma readdir_loop_emit (g : globals) :
  forall fuel k buf,
    (List.length (entries g) <= k + fuel)%nat ->
    readdir_loop g filler fuel (Z.of_nat k) buf
    = (Some 0, emit filler (skipn k (entries g)) (Z.of_nat k + 1) buf).
Proof.
  induction fuel as [|fuel IH]; intros k buf Hk; simpl.
  - rewrite skipn_all2 by lia. reflexivity.
  - unfold entries_sz.
    destruct (Z.ltb_spec (Z.of_nat k)
                         (Z.of_nat (List.length (entries g)))) as [Hlt|Hge].
    + rewrite entries_at_nat.
      destruct (nth_error (entries g) k) as [e|] eqn:He.
      * rewrite (skipn_cons_nth _ _ He). simpl.
        destruct (filler buf (path e) None (Z.of_nat k + 1)) as [r buf'].
        destruct (r =? 0); simpl; [|reflexivity].
        replace (Z.of_nat k + 1) with (Z.of_nat (S k)) by lia.
        apply IH. lia.
      * apply nth_error_None in He. lia.
    + rewrite skipn_all2 by lia. reflexivity.
Qed.

Lemma exec_readdir_root (s : state World) (buf : B) (k : Z)
      (fi : option Fuse.fuse_file_info) :
  0 <= k <= INT_MAX ->
  exec_readdir "/" buf filler k fi s
  = ((Some 0,
      emit filler (skipn (Z.to_nat k) (entries (s_globals s))) (k + 1) buf), s).
Proof.
  intros Hk. unfold exec_readdir, bind, get_globals, ret.
  change (is_root "/") with true. cbn [negb].
  rewrite to_int_small by (unfold INT_MAX in *; lia).
  pose proof (readdir_loop_emit (s_globals s)
                (S (List.length (entries (s_globals s)))) (Z.to_nat k) buf)
    as Hloop.
  rewrite Z2Nat.id in Hloop by lia.
  rewrite Hloop by lia. reflexivity.
Qed.

Lemma exec_readdir_not_root (s : state World) (p : string) (buf : B)
      (k : Z) (fi : option Fuse.fuse_file_info) :
  p <> "/" ->
  exec_readdir p buf filler k fi s = ((Some (- Errno.EBADF), buf), s).
Proof.
  intros Hp. unfold exec_readdir.
  destruct (is_root p) eqn:E; [|reflexivity].
  apply is_root_iff in E. contradiction.
Qed.
End Readdir.

Lemma emit_collect (es : list entry_t) :
  forall off listing,
    emit collect es off listing = (listing ++ map path es)%list.
Proof.
  induction es as [|e es IH]; intros off listing; simpl.
  - now rewrite app_nil_r.
  - rewrite IH, <- app_assoc. reflexivity.
Qed.

Section Listing.
Context {World : Type} {libc : Libc World}.

(** C6, amended.  For every start index k that fits an [int], list on
    root succeeds and hands the entries from index k onward to the
    callback, in table order, each once and with the index that follows
    it, until the callback refuses one; when the callback never refuses,
    as [collect] does, the names listed are exactly those of the entries
    from index k onward.  On every path but root, list fails with
    [EBADF] and emits nothing. *)
Theorem exec_readdir_listing (s : state World) (B : Type)
        (filler : B -> string -> option Stat.stat -> Z -> Z * B)
        (buf : B) (names : list string) (k : Z)
        (fi : option Fuse.fuse_file_info) (p : string) :
  0 <= k <= INT_MAX ->
  exec_readdir "/" buf filler k fi s
  = ((Some 0,
      emit filler (skipn (Z.to_nat k) (entries (s_globals s))) (k + 1) buf),
     s) /\
  exec_readdir "/" names collect k fi s
  = ((Some 0,
      (names ++ map path (skipn (Z.to_nat k) (entries (s_globals s))))%list),
     s) /\
  (p <> "/" ->
   exec_readdir p buf filler k fi s = ((Some (- Errno.EBADF), buf), s)).
Proof.
  intros Hk. split; [|split].
  - now apply exec_readdir_root.
  - rewrite (exec_readdir_root collect s names fi Hk).
    now rewrite emit_collect.
  - apply exec_readdir_not_root.
Qed.
End Listing.

Lemma exec_readdir_listing_witness :
  0 <= 1 <= INT_MAX /\
  fst (exec_readdir "/" [] collect 1 None
                    (Sample.boot Sample.stranger Sample.healthy))
  = (Some 0, ["sink"]) /\
  fst (exec_readdir "/" [] collect 0 None
                    (Sample.boot Sample.stranger Sample.healthy))
  = (Some 0, ["hello"; "sink"]).
Proof.
  split; [unfold INT_MAX; lia|]. split.
  - rewrite (proj1 (proj2
      (@exec_readdir_listing _
         (Sample.boot Sample.stranger Sample.healthy) _ collect [] [] 1 None
         "/hello" ltac:(unfold INT_MAX; lia)))).
    reflexivity.
  - rewrite (proj1 (proj2
      (@exec_readdir_listing _
         (Sample.boot Sample.stranger Sample.healthy) _ collect [] [] 0 None
         "/hello" ltac:(unfold INT_MAX; lia)))).
    reflexivity.
Defined.

(** The start index is narrowed to [int]: index [2^32] lists the table
    from its first entry. *)
Example exec_readdir_index_narrowed :
  fst (exec_readdir "/" [] collect (2 ^ 32) None
                    (Sample.boot Sample.stranger Sample.healthy))
  = (Some 0, ["hello"; "sink"]).
Proof. reflexivity. Qed.

(** The claim as the spec states it has every call list all the entries
    from the start index onward.  A callback with room for one name stops
    the listing of the two-entry table after the first. *)
Lemma exec_readdir_full_buffer :
  fst (exec_readdir "/" [] (bounded 1) 0 None
                    (Sample.boot Sample.stranger Sample.healthy))
  = (Some 0, ["hello"]) /\
  ["hello"] <> map path (skipn 0 (entries Sample.mount)).
Proof.
  split; [reflexivity|]. intros H. discriminate H.
Qed.

(** ** getattr *)

Lemma entry_mode_bits (e : entry_t) :
  Z.land (entry_mode e) Stat.S_IFMT = Stat.S_IFREG /\
  mode_triples (entry_mode e) = (owner_bits e, group_bits e, other_bits e) /\
  special_bits (entry_mode e) = 0.
Proof.
  unfold entry_mode, owner_bits, group_bits, other_bits.
  destruct (u_r e), (u_w e), (u_x e), (g_r e), (g_w e), (g_x e),
           (o_r e), (o_w e), (o_x e); vm_compute; repeat split.
Qed.

Section Getattr.
Context {World : Type} {libc : Libc World}.

Lemma exec_getattr_root (s : state World) (st0 : Stat.stat) :
  exec_getattr "/" (Some st0) s
  = ((0, Some {| Stat.st_uid := uid (s_globals s);
                 Stat.st_gid := gid (s_globals s);
                 Stat.st_atime := time (s_world s);
                 Stat.st_mtime := time (s_world s);
                 Stat.st_ctime := time (s_world s);
                 Stat.st_mode := root_mode;
                 Stat.st_size := 0;
                 Stat.st_nlink := 1 |}), s).
Proof. reflexivity. Qed.

Lemma exec_getattr_not_root (s : state World) (p : string)
      (st0 : Stat.stat) :
  is_root p = false ->
  exec_getattr p (Some st0) s
  = match find_entry (s_globals s) p with
    | Some e =>
        ((0, Some {| Stat.st_uid := uid (s_globals s);
                     Stat.st_gid := gid (s_globals s);
                     Stat.st_atime := time (s_world s);
                     Stat.st_mtime := time (s_world s);
                     Stat.st_ctime := time (s_world s);
                     Stat.st_mode := entry_mode e;
                     Stat.st_size := size (s_globals s);
                     Stat.st_nlink := 1 |}), s)
    | None =>
        ((- Errno.ENOENT,
          Some {| Stat.st_uid := uid (s_globals s);
                  Stat.st_gid := gid (s_globals s);
                  Stat.st_atime := time (s_world s);
                  Stat.st_mtime := time (s_world s);
                  Stat.st_ctime := time (s_world s);
                  Stat.st_mode := Stat.st_mode st0;
                  Stat.st_size := Stat.st_size st0;
                  Stat.st_nlink := Stat.st_nlink st0 |}), s)
    end.
Proof.
  intros Hr. unfold exec_getattr, bind, get_globals, observe, ret.
  rewrite Hr. destruct (find_entry (s_globals s) p); reflexivity.
Qed.

(** C7.  For root, attributes reports a directory with read and execute
    permission, and no write permission, for the three classes, one link
    and the mount identity as owner.  For a path that resolves to an
    entry it reports a regular file whose nine permission bits are the
    nine bits stored in the entry, one link, the mount identity as owner
    whoever the caller is, and the configured size.  For a path that
    resolves to nothing it fails with [ENOENT].  No call changes the
    state. *)
Theorem exec_getattr_attributes (s : state World) (p : string)
        (st0 : Stat.stat) :
  match resolve (s_globals s) p with
  | Root =>
      exists st,
      exec_getattr p (Some st0) s = ((0, Some st), s) /\
      Z.land (Stat.st_mode st) Stat.S_IFMT = Stat.S_IFDIR /\
      mode_triples (Stat.st_mode st)
      = ((true, false, true), (true, false, true), (true, false, true)) /\
      special_bits (Stat.st_mode st) = 0 /\
      Stat.st_nlink st = 1 /\
      Stat.st_uid st = uid (s_globals s) /\
      Stat.st_gid st = gid (s_globals s)
  | Entry e =>
      exists st,
      exec_getattr p (Some st0) s = ((0, Some st), s) /\
      Z.land (Stat.st_mode st) Stat.S_IFMT = Stat.S_IFREG /\
      mode_triples (Stat.st_mode st)
      = (owner_bits e, group_bits e, other_bits e) /\
      special_bits (Stat.st_mode st) = 0 /\
      Stat.st_nlink st = 1 /\
      Stat.st_uid st = uid (s_globals s) /\
      Stat.st_gid st = gid (s_globals s) /\
      Stat.st_size st = size (s_globals s)
  | NotFound =>
      fst (fst (exec_getattr p (Some st0) s)) = - Errno.ENOENT /\
      snd (exec_getattr p (Some st0) s) = s
  end.
Proof.
  unfold resolve. destruct (is_root p) eqn:Hr.
  - apply is_root_iff in Hr. subst p. eexists. split.
    + apply exec_getattr_root.
    + cbn [Stat.st_mode Stat.st_nlink Stat.st_uid Stat.st_gid].
      repeat split.
  - rewrite (@exec_getattr_not_root s p st0 Hr).
    destruct (find_entry (s_globals s) p) as [e|].
    + eexists. split; [reflexivity|].
      cbn [Stat.st_mode Stat.st_nlink Stat.st_uid Stat.st_gid Stat.st_size].
      destruct (entry_mode_bits e) as (Ht & Hb & Hs).
      repeat split; assumption.
    + split; reflexivity.
Qed.
End Getattr.

(** ** flush and fsync *)

Section Sync.
Context {World : Type} {libc : Libc World}.

(** C8.  On root, flush and fsync succeed and leave the state, streams
    included, as it was.  On a path that resolves to nothing they fail
    with [ENOENT].  On a path that resolves to an entry, with a handle
    that has a stream, flush is fflush on that stream and fsync is fsync
    on its descriptor.  The datasync hint has no part in the result. *)
Theorem flush_fsync_contract (s : state World) (p : string) (datasync : Z)
        (fi : option Fuse.fuse_file_info) :
  match resolve (s_globals s) p with
  | Root =>
      exec_flush p fi s = (0, s) /\ exec_fsync p datasync fi s = (0, s)
  | NotFound =>
      exec_flush p fi s = (- Errno.ENOENT, s) /\
      exec_fsync p datasync fi s = (- Errno.ENOENT, s)
  | Entry _ =>
      forall info,
        fi = Some info -> Fuse.fh info <> 0 ->
        exec_flush p fi s = call (fflush (Fuse.fh info)) s /\
        exec_fsync p datasync fi s
        = call (fsync (fileno (Fuse.fh info) (s_world s))) s
  end.
Proof.
  unfold resolve, exec_flush, exec_fsync, bind, get_globals, ret. simpl.
  destruct (is_root p); [split; reflexivity|].
  destruct (find_entry (s_globals s) p) as [e|]; [|split; reflexivity].
  intros info -> Hfh.
  destruct (Z.eqb_spec (Fuse.fh info) 0) as [E|_]; [contradiction|].
  split; reflexivity.
Qed.
End Sync.

Lemma flush_fsync_contract_witness :
  exec_flush "/sink" (Some (Sample.handle Fcntl.O_WRONLY))
             (Sample.boot Sample.owner Sample.healthy)
  = (0, Sample.boot Sample.owner Sample.healthy) /\
  fst (exec_fsync "/sink" 1 (Some (Sample.handle Fcntl.O_WRONLY))
                  (Sample.boot Sample.owner Sample.failing)) = -1.
Proof.
  split.
  - rewrite (proj1 (@flush_fsync_contract _ _
                      (Sample.boot Sample.owner Sample.healthy) "/sink" 0
                      (Some (Sample.handle Fcntl.O_WRONLY))
                      (Sample.handle Fcntl.O_WRONLY) eq_refl
                      ltac:(discriminate))).
    reflexivity.
  - rewrite (proj2 (@flush_fsync_contract _ _
                      (Sample.boot Sample.owner Sample.failing) "/sink" 1
                      (Some (Sample.handle Fcntl.O_WRONLY))
                      (Sample.handle Fcntl.O_WRONLY) eq_refl
                      ltac:(discriminate))).
    reflexivity.
Defined.

(** ** The stubs *)

Section Stubs.
Context {World : Type} {libc : Libc World}.

(** C9.  Every rejected operation, on every path and with every argument,
    fails with [EACCES] and leaves the entry table, the mount identity and
    the streams as they were. *)
Theorem fail_stubs_reject (s : state World) (c : fail_call) (p : string) :
  fst (ops_fail c p s) = - Errno.EACCES /\
  s_globals (snd (ops_fail c p s)) = s_globals s /\
  s_context (snd (ops_fail c p s)) = s_context s /\
  s_world (snd (ops_fail c p s)) = s_world s.
Proof.
  destruct c; repeat split.
Qed.

(** C10.  Every operation accepted as a no-op, on every path and with
    every argument, returns 0 when the path resolves to root or to an
    entry and fails with [ENOENT] when it resolves to nothing; in both
    cases the entry table, the mount identity and the streams are as they
    were. *)
Theorem nop_stubs_accept (s : state World) (c : nop_call) (p : string) :
  fst (ops_nop c p s)
  = match resolve (s_globals s) p with
    | Root => 0
    | Entry _ => 0
    | NotFound => - Errno.ENOENT
    end /\
  s_globals (snd (ops_nop c p s)) = s_globals s /\
  s_context (snd (ops_nop c p s)) = s_context s /\
  s_world (snd (ops_nop c p s)) = s_world s.
Proof.
  unfold resolve.
  destruct c; simpl;
    unfold exec_fsyncdir, exec_releasedir, exec_truncate, exec_utime,
      exec_utimens, NOP_STUB, bind, LOG, get_globals, ret; simpl;
    destruct (is_root p); simpl;
    try destruct (find_entry (s_globals s) p); repeat split.
Qed.
End Stubs.


(** * Further properties *)

(** ** open: what it does to the request and to the world *)

Section OpenSession.
Context {World : Type} {libc : Libc World}.

(** exec_open in full, case by case on the lookup, the rights test and the
    handle popen returns. *)
Lemma exec_open_cases (s : state World) (p : string)
      (info : Fuse.fuse_file_info) :
  match find_entry (s_globals s) p with
  | None => exec_open p (Some info) s = ((- Errno.ENOENT, Some info), s)
  | Some e =>
      if open_denied (Z.land (Fuse.flags info) RIGHTS_MASK)
                     (fst (access_rights e s))
      then exec_open p (Some info) s = ((- Errno.EACCES, Some info), s)
      else
        fst (exec_open p (Some info) s)
        = (if fst (popen (command e)
                         (direction_of
                            (Z.land (Fuse.flags info) RIGHTS_MASK))
                         (s_world s)) =? 0
           then - Errno.EBADF else 0,
           Some {| Fuse.flags := Fuse.flags info;
                   Fuse.fh :=
                     fst (popen (command e)
                                (direction_of
                                   (Z.land (Fuse.flags info) RIGHTS_MASK))
                                (s_world s)) |}) /\
        s_world (snd (exec_open p (Some info) s))
        = snd (popen (command e)
                     (direction_of (Z.land (Fuse.flags info) RIGHTS_MASK))
                     (s_world s)) /\
        same_mount s (snd (exec_open p (Some info) s))
  end.
Proof.
  unfold exec_open, bind, get_globals, ret. cbn beta iota.
  change (fst (s_globals s, s)) with (s_globals s).
  cbn [fst snd].
  destruct (find_entry (s_globals s) p) as [e|]; [|reflexivity].
  pose proof (access_rights_state e s) as Hs.
  destruct (access_rights e s) as [r s']. cbn [fst snd] in *. subst s'.
  fold (open_denied (Z.land (Fuse.flags info) RIGHTS_MASK) r).
  destruct (open_denied (Z.land (Fuse.flags info) RIGHTS_MASK) r);
    [reflexivity|].
  fold (direction_of (Z.land (Fuse.flags info) RIGHTS_MASK)).
  unfold call, LOG. cbn [s_world s_globals s_context s_log].
  destruct (popen (command e)
                  (direction_of (Z.land (Fuse.flags info) RIGHTS_MASK))
                  (s_world s)) as [h w].
  cbn [fst snd]. unfold same_mount.
  destruct (h =? 0); cbn [fst snd s_world s_globals s_context s_log];
    (split; [reflexivity|]; split; [reflexivity|];
     split; [reflexivity|]; split; [reflexivity|];
     eexists; rewrite <- app_assoc; reflexivity).
Qed.

(** X1.  A refused open is silent: when exec_open answers [ENOENT] or
    [EACCES], no command has been started, the request is as it came and
    the state, log included, is as it was. *)
Theorem exec_open_refusal_leaves_no_trace (s : state World) (p : string)
        (info : Fuse.fuse_file_info) :
  fst (fst (exec_open p (Some info) s)) = - Errno.ENOENT \/
  fst (fst (exec_open p (Some info) s)) = - Errno.EACCES ->
  exec_open p (Some info) s
  = ((fst (fst (exec_open p (Some info) s)), Some info), s).
Proof.
  intros H. pose proof (exec_open_cases s p info) as C.
  destruct (find_entry (s_globals s) p) as [e|].
  - destruct (open_denied (Z.land (Fuse.flags info) RIGHTS_MASK)
                          (fst (access_rights e s))).
    + rewrite C. reflexivity.
    + destruct C as (C & _). rewrite C in H. cbn [fst] in H.
      destruct (fst (popen (command e)
                           (direction_of
                              (Z.land (Fuse.flags info) RIGHTS_MASK))
                           (s_world s)) =? 0);
        destruct H as [H|H]; discriminate H.
  - rewrite C. reflexivity.
Qed.

(** X2.  Once the lookup and the rights test are passed, exec_open starts the
    entry's command exactly once, reading its output ("r") for a read-only
    request and feeding its input ("w") for every other access mode,
    read-write included; it stores the handle popen returned in [fi->fh],
    also when that handle is [NULL], keeps the flags, and answers 0 or
    [EBADF] as the handle is non-null or null. *)
Theorem exec_open_starts_command (s : state World) (p : string)
        (info : Fuse.fuse_file_info) (e : entry_t) :
  find_entry (s_globals s) p = Some e ->
  fst (fst (exec_open p (Some info) s)) <> - Errno.EACCES ->
  fst (exec_open p (Some info) s)
  = (if fst (popen (command e)
                   (if Z.land (Fuse.flags info) RIGHTS_MASK
                       =? Fcntl.O_RDONLY then "r" else "w")
                   (s_world s)) =? 0
     then - Errno.EBADF else 0,
     Some {| Fuse.flags := Fuse.flags info;
             Fuse.fh :=
               fst (popen (command e)
                          (if Z.land (Fuse.flags info) RIGHTS_MASK
                              =? Fcntl.O_RDONLY then "r" else "w")
                          (s_world s)) |}) /\
  s_world (snd (exec_open p (Some info) s))
  = snd (popen (command e)
               (if Z.land (Fuse.flags info) RIGHTS_MASK
                   =? Fcntl.O_RDONLY then "r" else "w")
               (s_world s)).
Proof.
  intros He Hacc. pose proof (exec_open_cases s p info) as C.
  rewrite He in C.
  destruct (open_denied (Z.land (Fuse.flags info) RIGHTS_MASK)
                        (fst (access_rights e s))).
  - rewrite C in Hacc. now destruct Hacc.
  - destruct C as (C1 & C2 & _). unfold direction_of in C1, C2.
    split; assumption.
Qed.

(** X3.  The rights test knows three access modes only.  A request whose two
    low flag bits are both set passes it whatever the caller's rights: on
    a path the lookup finds, exec_open starts the command for writing and
    never answers [EACCES]. *)
Theorem exec_open_mode_three_unchecked (s : state World) (p : string)
        (info : Fuse.fuse_file_info) (e : entry_t) :
  Z.land (Fuse.flags info) RIGHTS_MASK = 3 ->
  find_entry (s_globals s) p = Some e ->
  fst (fst (exec_open p (Some info) s))
  = (if fst (popen (command e) "w" (s_world s)) =? 0
     then - Errno.EBADF else 0) /\
  s_world (snd (exec_open p (Some info) s))
  = snd (popen (command e) "w" (s_world s)).
Proof.
  intros Hm He. pose proof (exec_open_cases s p info) as C.
  rewrite He, Hm in C.
  change (open_denied 3 (fst (access_rights e s))) with
    (false && (Z.land (fst (access_rights e s)) R =? 0)
     || false && (Z.land (fst (access_rights e s)) W =? 0)) in C.
  cbn [andb orb] in C. destruct C as (C1 & C2 & _).
  change (direction_of 3) with "w" in C1, C2.
  rewrite C1. cbn [fst]. split; [reflexivity|exact C2].
Qed.

Lemma open_denied_by_bits (e : entry_t) (s : state World) (m : open_mode) :
  open_denied (mode_flag m) (fst (access_rights e s))
  = match m with
    | ReadOnly => negb (fst (fst (class_bits s e)))
    | WriteOnly => negb (snd (fst (class_bits s e)))
    | ReadWrite => negb (fst (fst (class_bits s e)))
                   || negb (snd (fst (class_bits s e)))
    end.
Proof.
  unfold class_bits, access_rights, bind, fuse_get_context, get_globals, ret.
  cbn [fst snd].
  destruct (Fuse.uid (s_context s) =? uid (s_globals s)).
  - unfold owner_bits. cbn [fst snd].
    destruct (u_r e), (u_w e), (u_x e), m; reflexivity.
  - destruct (Fuse.gid (s_context s) =? gid (s_globals s)).
    + unfold group_bits. cbn [fst snd].
      destruct (g_r e), (g_w e), (g_x e), m; reflexivity.
    + unfold other_bits. cbn [fst snd].
      destruct (o_r e), (o_w e), (o_x e), m; reflexivity.
Qed.

(** X4.  exec_open judges the caller by one class only, the first that matches:
    on a path the lookup finds, it answers [EACCES] exactly when that
    class lacks the read bit (read-only), the write bit (write-only), or
    either of them (read-write).  The bits of the other two classes cannot
    make up for it. *)
Theorem exec_open_denied_by_class (s : state World) (p : string)
        (info : Fuse.fuse_file_info) (m : open_mode) (e : entry_t) :
  Z.land (Fuse.flags info) RIGHTS_MASK = mode_flag m ->
  find_entry (s_globals s) p = Some e ->
  (fst (fst (exec_open p (Some info) s)) = - Errno.EACCES
   <-> match m with
       | ReadOnly => fst (fst (class_bits s e)) = false
       | WriteOnly => snd (fst (class_bits s e)) = false
       | ReadWrite => fst (fst (class_bits s e)) = false \/
                      snd (fst (class_bits s e)) = false
       end).
Proof.
  intros Hm He. pose proof (exec_open_cases s p info) as C.
  rewrite He, Hm, open_denied_by_bits in C.
  destruct m, (fst (fst (class_bits s e))), (snd (fst (class_bits s e)));
    cbn [negb orb] in C;
    try (rewrite C; cbn [fst]; split; intros H;
         [tauto || auto | reflexivity]);
    try (destruct C as (C & _); rewrite C; cbn [fst];
         destruct (fst (popen (command e) (direction_of (mode_flag _))
                              (s_world s)) =? 0);
         split; intros H; try discriminate H;
         try (destruct H as [H|H]; discriminate H)).
Qed.

(** X5.  The lookup of exec_open does not know root: when no entry is stored
    under the empty path, open on the root designator answers [ENOENT],
    silently. *)
Theorem exec_open_root_not_found (s : state World)
        (info : Fuse.fuse_file_info) :
  (forall e, In e (entries (s_globals s)) -> path e <> "") ->
  exec_open "/" (Some info) s = ((- Errno.ENOENT, Some info), s).
Proof.
  intros H. pose proof (exec_open_cases s "/" info) as C.
  rewrite (proj2 (find_entry_none (s_globals s) "") H) in C. exact C.
Qed.
End OpenSession.

(** ** release, and a session from open to release *)

Ltac frame :=
  unfold same_mount; cbn [s_globals s_context s_log s_world fst snd];
  split; [reflexivity|split; [reflexivity|]];
  first [ exists []; rewrite app_nil_r; reflexivity
        | eexists; reflexivity
        | eexists; rewrite <- app_assoc; reflexivity
        | eexists; rewrite <- !app_assoc; reflexivity ].

Section Release.
Context {World : Type} {libc : Libc World}.

Lemma exec_release_live (s : state World) (p : string)
      (info : Fuse.fuse_file_info) (e : entry_t) :
  find_entry (s_globals s) p = Some e ->
  Fuse.fh info <> 0 ->
  exec_release p (Some info) s
  = (0, set_world s (snd (pclose (Fuse.fh info) (s_world s)))).
Proof.
  intros He Hfh. unfold exec_release, bind, get_globals, call, ret.
  rewrite He. rewrite orb_true_r. cbn [negb].
  destruct (Z.eqb_spec (Fuse.fh info) 0) as [E|_]; [contradiction|].
  destruct (pclose (Fuse.fh info) (s_world s)) as [r w]. reflexivity.
Qed.

(** X6.  exec_release closes the stream of the handle and answers 0 whatever
    pclose returns, when the path is root or is found and the handle holds
    a stream.  When the path resolves to nothing, or the handle is [NULL]
    or holds no stream, it answers -1 and calls pclose on nothing: the
    world is as it was. *)
Theorem exec_release_contract (s : state World) (p : string)
        (fi : option Fuse.fuse_file_info) :
  match resolve (s_globals s) p with
  | NotFound =>
      fst (exec_release p fi s) = -1 /\
      s_world (snd (exec_release p fi s)) = s_world s
  | _ =>
      match fi with
      | None =>
          fst (exec_release p fi s) = -1 /\
          s_world (snd (exec_release p fi s)) = s_world s
      | Some info =>
          if Fuse.fh info =? 0 then
            fst (exec_release p fi s) = -1 /\
            s_world (snd (exec_release p fi s)) = s_world s
          else
            exec_release p fi s
            = (0, set_world s (snd (pclose (Fuse.fh info) (s_world s))))
      end
  end.
Proof.
  unfold resolve, exec_release, bind, get_globals, call, ret, assert_failed,
    LOG.
  cbn [fst snd].
  destruct (is_root p); cbn [orb negb];
    [|destruct (find_entry (s_globals s) p); cbn [negb]];
    try (split; reflexivity);
    (destruct fi as [info|]; [|split; reflexivity];
     destruct (Fuse.fh info =? 0); [split; reflexivity|];
     cbn [s_world];
     destruct (pclose (Fuse.fh info) (s_world s)) as [r w]; reflexivity).
Qed.

(** X7.  After a successful open the handle holds the stream popen returned,
    and release on the same path closes that stream and answers 0. *)
Theorem open_then_release (s : state World) (p : string)
        (info : Fuse.fuse_file_info) :
  fst (fst (exec_open p (Some info) s)) = 0 ->
  exists e h,
    find_entry (s_globals s) p = Some e /\
    h = fst (popen (command e)
                   (direction_of (Z.land (Fuse.flags info) RIGHTS_MASK))
                   (s_world s)) /\
    h <> 0 /\
    snd (fst (exec_open p (Some info) s))
    = Some {| Fuse.flags := Fuse.flags info; Fuse.fh := h |} /\
    exec_release p (snd (fst (exec_open p (Some info) s)))
                 (snd (exec_open p (Some info) s))
    = (0, set_world (snd (exec_open p (Some info) s))
                    (snd (pclose h
                            (s_world (snd (exec_open p (Some info) s)))))).
Proof.
  intros H0. pose proof (exec_open_cases s p info) as C.
  destruct (find_entry (s_globals s) p) as [e|] eqn:He.
  - destruct (open_denied (Z.land (Fuse.flags info) RIGHTS_MASK)
                          (fst (access_rights e s))).
    + rewrite C in H0. discriminate H0.
    + destruct C as (C1 & C2 & (Cg & _)).
      rewrite C1 in H0. cbn [fst] in H0.
      destruct (Z.eqb_spec
                  (fst (popen (command e)
                              (direction_of
                                 (Z.land (Fuse.flags info) RIGHTS_MASK))
                              (s_world s))) 0) as [Hz|Hnz];
        [discriminate H0|].
      exists e, (fst (popen (command e)
                            (direction_of
                               (Z.land (Fuse.flags info) RIGHTS_MASK))
                            (s_world s))).
      split; [reflexivity|]. split; [reflexivity|].
      split; [exact Hnz|]. rewrite C1. cbn [snd]. split; [reflexivity|].
      apply (@exec_release_live _ p
               {| Fuse.flags := Fuse.flags info;
                  Fuse.fh :=
                    fst (popen (command e)
                               (direction_of
                                  (Z.land (Fuse.flags info) RIGHTS_MASK))
                               (s_world s)) |} e); [|exact Hnz].
      rewrite Cg. exact He.
  - rewrite C in H0. discriminate H0.
Qed.

(** X8.  After a successful open, read, write and flush on the handle it left
    pass their assertions and act on the stream popen returned: read
    answers the count of fread with the bytes stored at the front of the
    buffer, write the count of fwrite, flush what fflush returns. *)
Theorem open_then_transfer (s : state World) (p : string)
        (info : Fuse.fuse_file_info) (buf : list Byte.byte)
        (size offset : Z) :
  fst (fst (exec_open p (Some info) s)) = 0 ->
  exists e h,
    find_entry (s_globals s) p = Some e /\
    h = fst (popen (command e)
                   (direction_of (Z.land (Fuse.flags info) RIGHTS_MASK))
                   (s_world s)) /\
    fst (exec_read p buf size offset
                   (snd (fst (exec_open p (Some info) s)))
                   (snd (exec_open p (Some info) s)))
    = (to_int (Z.of_nat (List.length
         (fst (fread h size
                     (s_world (snd (exec_open p (Some info) s))))))),
       store (fst (fread h size
                         (s_world (snd (exec_open p (Some info) s))))) buf) /\
    fst (exec_write p buf size offset
                    (snd (fst (exec_open p (Some info) s)))
                    (snd (exec_open p (Some info) s)))
    = to_int (fst (fwrite h buf size
                          (s_world (snd (exec_open p (Some info) s))))) /\
    exec_flush p (snd (fst (exec_open p (Some info) s)))
               (snd (exec_open p (Some info) s))
    = (if is_root p then ret 0 else call (fflush h))
        (snd (exec_open p (Some info) s)).
Proof.
  intros H0. pose proof (exec_open_cases s p info) as C.
  destruct (find_entry (s_globals s) p) as [e|] eqn:He.
  - destruct (open_denied (Z.land (Fuse.flags info) RIGHTS_MASK)
                          (fst (access_rights e s))).
    + rewrite C in H0. discriminate H0.
    + destruct C as (C1 & C2 & (Cg & _)).
      rewrite C1 in H0. cbn [fst] in H0.
      destruct (Z.eqb_spec
                  (fst (popen (command e)
                              (direction_of
                                 (Z.land (Fuse.flags info) RIGHTS_MASK))
                              (s_world s))) 0) as [Hz|Hnz];
        [discriminate H0|].
      exists e, (fst (popen (command e)
                            (direction_of
                               (Z.land (Fuse.flags info) RIGHTS_MASK))
                            (s_world s))).
      split; [reflexivity|]. split; [reflexivity|].
      rewrite C1. cbn [snd]. split; [|split].
      * now apply exec_read_result.
      * now apply exec_write_result.
      * unfold exec_flush, bind, get_globals. cbn [fst snd].
        destruct (is_root p); [reflexivity|].
        rewrite Cg, He. cbn [Fuse.fh].
        destruct (Z.eqb_spec
                    (fst (popen (command e)
                                (direction_of
                                   (Z.land (Fuse.flags info) RIGHTS_MASK))
                                (s_world s))) 0) as [Hz|_];
          [contradiction|reflexivity].
  - rewrite C in H0. discriminate H0.
Qed.

(** X9.  With a [NULL] handle or a handle that holds no stream, no callback
    touches a stream: read, write and release answer -1, read leaves the
    buffer as it was, and flush and fsync, whatever they answer, leave the
    world as it was. *)
Theorem no_stream_no_transfer (s : state World) (p : string)
        (fi : option Fuse.fuse_file_info) (buf : list Byte.byte)
        (size offset datasync : Z) :
  no_stream fi = true ->
  fst (exec_read p buf size offset fi s) = (-1, buf) /\
  s_world (snd (exec_read p buf size offset fi s)) = s_world s /\
  fst (exec_write p buf size offset fi s) = -1 /\
  s_world (snd (exec_write p buf size offset fi s)) = s_world s /\
  fst (exec_release p fi s) = -1 /\
  s_world (snd (exec_release p fi s)) = s_world s /\
  s_world (snd (exec_flush p fi s)) = s_world s /\
  s_world (snd (exec_fsync p datasync fi s)) = s_world s.
Proof.
  intros Hn.
  unfold exec_read, exec_write, exec_release, exec_flush, exec_fsync, bind,
    get_globals, ret, assert_failed, LOG.
  cbn [fst snd].
  destruct fi as [info|]; cbn [no_stream] in Hn; [rewrite Hn|];
    destruct (is_root p); cbn [orb negb];
    try destruct (find_entry (s_globals s) p); cbn [negb];
    repeat split.
Qed.
End Release.

(** ** getattr: what it writes, and the names it knows *)

Section GetattrMore.
Context {World : Type} {libc : Libc World}.

(** X10.  exec_getattr stamps the buffer before it looks the path up: on every
    path, found or not, the buffer ends with the mount identity as owner
    and the clock's present reading as its three timestamps.  On root the
    size is 0.  On a path that resolves to nothing the call fails yet has
    overwritten owner and timestamps, leaving mode, size and link count as
    they were.  With a [NULL] buffer it answers -1 and asks no clock. *)
Theorem exec_getattr_stamps (s : state World) (p : string)
        (st0 : Stat.stat) :
  (exists st,
      snd (fst (exec_getattr p (Some st0) s)) = Some st /\
      Stat.st_uid st = uid (s_globals s) /\
      Stat.st_gid st = gid (s_globals s) /\
      Stat.st_atime st = time (s_world s) /\
      Stat.st_mtime st = time (s_world s) /\
      Stat.st_ctime st = time (s_world s) /\
      match resolve (s_globals s) p with
      | Root => Stat.st_size st = 0
      | Entry _ => Stat.st_size st = size (s_globals s)
      | NotFound =>
          Stat.st_mode st = Stat.st_mode st0 /\
          Stat.st_size st = Stat.st_size st0 /\
          Stat.st_nlink st = Stat.st_nlink st0
      end) /\
  fst (exec_getattr p None s) = (-1, None) /\
  s_world (snd (exec_getattr p None s)) = s_world s.
Proof.
  split; [|split; reflexivity].
  unfold resolve. destruct (is_root p) eqn:Hr.
  - apply is_root_iff in Hr. subst p. rewrite exec_getattr_root.
    eexists. split; [reflexivity|]. repeat split.
  - rewrite (@exec_getattr_not_root _ _ s p st0 Hr).
    destruct (find_entry (s_globals s) p);
      (eexists; split; [reflexivity|]; repeat split).
Qed.

(** X11.  Every name readdir can list is known to getattr: for every entry of
    the table, getattr on the separator followed by its stored path
    succeeds, reporting a regular file, or the root directory when the
    stored path is empty. *)
Theorem exec_getattr_listed_name (s : state World) (e : entry_t)
        (st0 : Stat.stat) :
  In e (entries (s_globals s)) ->
  exists st,
    exec_getattr (String "/" (path e)) (Some st0) s = ((0, Some st), s) /\
    Z.land (Stat.st_mode st) Stat.S_IFMT
    = if String.eqb (path e) "" then Stat.S_IFDIR else Stat.S_IFREG.
Proof.
  intros Hin. destruct (String.eqb_spec (path e) "") as [Hp|Hp].
  - rewrite Hp. rewrite exec_getattr_root. eexists. split; reflexivity.
  - assert (Hr : is_root (String "/" (path e)) = false).
    { destruct (is_root (String "/" (path e))) eqn:E; [|reflexivity].
      apply is_root_iff in E. injection E as E. contradiction. }
    rewrite (@exec_getattr_not_root _ _ s _ st0 Hr).
    destruct (find_entry (s_globals s) (String "/" (path e))) as [e'|] eqn:Hf.
    + eexists. split; [reflexivity|].
      cbn [Stat.st_mode]. apply (proj1 (entry_mode_bits e')).
    + exfalso. apply (proj1 (find_entry_none (s_globals s) (path e)) Hf e Hin).
      reflexivity.
Qed.
End GetattrMore.

(** ** The lookup against a table with unique paths *)

Lemma nth_error_path (es : list entry_t) (i : nat) (e : entry_t) :
  nth_error es i = Some e -> nth_error (map path es) i = Some (path e).
Proof.
  intros H. rewrite nth_error_map, H. reflexivity.
Qed.

(** X12.  When the stored paths of the table are pairwise different, as the
    configuration is meant to guarantee, the lookup of the separator
    followed by an entry's stored path gives back that very entry. *)
Theorem find_entry_round_trip (g : globals) (e : entry_t) :
  NoDup (map path (entries g)) ->
  In e (entries g) ->
  find_entry g (String "/" (path e)) = Some e.
Proof.
  intros Hnd Hin.
  destruct (find_entry g (String "/" (path e))) as [e'|] eqn:Hf.
  - apply find_entry_first in Hf. destruct Hf as (i & Hi & Hp & _).
    apply In_nth_error in Hin. destruct Hin as (j & Hj).
    pose proof (nth_error_path _ _ Hi) as Hi'.
    pose proof (nth_error_path _ _ Hj) as Hj'.
    rewrite Hp in Hi'.
    assert (Hlt : (i < List.length (map path (entries g)))%nat).
    { apply nth_error_Some. rewrite Hi'. discriminate. }
    assert (i = j).
    { apply (proj1 (NoDup_nth_error (map path (entries g))) Hnd i j Hlt).
      now rewrite Hi', Hj'. }
    subst j. congruence.
  - exfalso. apply (proj1 (find_entry_none g (path e)) Hf e Hin). reflexivity.
Qed.

(** ** readdir: pages, offsets and bounds *)

Lemma emit_page (c : nat) (es : list entry_t) :
  forall off acc,
    emit (page c) es off acc
    = (acc ++ firstn (c - List.length acc) (numbered es off))%list.
Proof.
  induction es as [|e es IH]; intros off acc; cbn [emit numbered].
  - now rewrite firstn_nil, app_nil_r.
  - unfold page at 1. destruct (Nat.ltb_spec (List.length acc) c) as [Hlt|Hge].
    + cbn [Z.eqb]. rewrite IH, length_app. cbn [List.length].
      replace (c - List.length acc)%nat
        with (S (c - (List.length acc + 1)))%nat by lia.
      cbn [firstn]. now rewrite <- app_assoc.
    + cbn [Z.eqb]. replace (c - List.length acc)%nat with 0%nat by lia.
      now rewrite app_nil_r.
Qed.

Lemma numbered_length (es : list entry_t) :
  forall off, List.length (numbered es off) = List.length es.
Proof.
  induction es as [|e es IH]; intros off; cbn [numbered List.length];
    [reflexivity|]. now rewrite IH.
Qed.

Lemma numbered_names (es : list entry_t) :
  forall off, map fst (numbered es off) = map path es.
Proof.
  induction es as [|e es IH]; intros off; cbn [numbered map fst];
    [reflexivity|]. now rewrite IH.
Qed.

Lemma numbered_nth (es : list entry_t) :
  forall off j name o,
    nth_error (numbered es off) j = Some (name, o) ->
    o = off + Z.of_nat j /\
    exists e, nth_error es j = Some e /\ path e = name.
Proof.
  induction es as [|e es IH]; intros off j name o H.
  - destruct j; discriminate H.
  - destruct j as [|j]; cbn [numbered nth_error] in H.
    + injection H as <- <-. split; [lia|]. exists e. now split.
    + apply IH in H. destruct H as (Ho & e' & He' & Hp).
      split; [lia|]. exists e'. now split.
Qed.

Lemma numbered_skipn (m : nat) :
  forall es off,
    numbered (skipn m es) (off + Z.of_nat m) = skipn m (numbered es off).
Proof.
  induction m as [|m IH]; intros es off.
  - cbn [skipn]. now rewrite Z.add_0_r.
  - destruct es as [|e es]; [reflexivity|]. cbn [skipn numbered].
    rewrite <- IH. f_equal. lia.
Qed.

Lemma last_cons_default (A : Type) (l : list A) :
  forall a d, last (a :: l) d = last l a.
Proof.
  induction l as [|b l IH]; intros a d; [reflexivity|].
  change (last (a :: b :: l) d) with (last (b :: l) d).
  rewrite (IH b d), (IH b a). reflexivity.
Qed.

Lemma next_offset_page (es : list entry_t) :
  forall c k,
    next_offset k (firstn c (numbered es (k + 1)))
    = k + Z.of_nat (Nat.min c (List.length es)).
Proof.
  unfold next_offset.
  induction es as [|e es IH]; intros c k.
  - rewrite firstn_nil, Nat.min_0_r. cbn. lia.
  - destruct c as [|c]; [cbn; lia|].
    cbn [numbered firstn map snd List.length Nat.min].
    rewrite last_cons_default, IH. lia.
Qed.

Lemma firstn_two_pages (A : Type) (l : list A) :
  forall c c2,
    (firstn c l ++ firstn c2 (skipn (Nat.min c (List.length l)) l))%list
    = firstn (c + c2) l.
Proof.
  induction l as [|a l IH]; intros c c2.
  - now rewrite Nat.min_0_r, !firstn_nil.
  - destruct c as [|c]; [reflexivity|].
    cbn [List.length Nat.min skipn firstn Nat.add app]. now rewrite IH.
Qed.

Section Paging.
Context {World : Type}.

Lemma readdir_page_content (s : state World) (c : nat) (k : Z) :
  0 <= k <= INT_MAX ->
  readdir_page s c k
  = firstn c (numbered (skipn (Z.to_nat k) (entries (s_globals s))) (k + 1)).
Proof.
  intros Hk. unfold readdir_page.
  rewrite (exec_readdir_root (page c) s [] None Hk). cbn [fst snd].
  rewrite emit_page. cbn [List.length app]. now rewrite Nat.sub_0_r.
Qed.

(** X13.  One readdir call on root, from a start index k that fits an [int] and
    into a buffer with room for c entries, answers 0 and leaves the first
    c entries of the table from index k, in table order; the entry at
    position j of the page is the entry of index k + j, by name, with the
    offset k + j + 1 of the entry after it. *)
Theorem readdir_page_offsets (s : state World) (c : nat) (k : Z) (j : nat)
        (name : string) (off : Z) :
  0 <= k <= INT_MAX ->
  fst (fst (exec_readdir "/" [] (page c) k None s)) = Some 0 /\
  map fst (readdir_page s c k)
  = firstn c (map path (skipn (Z.to_nat k) (entries (s_globals s)))) /\
  (nth_error (readdir_page s c k) j = Some (name, off) ->
   off = k + Z.of_nat j + 1 /\
   exists e,
     nth_error (entries (s_globals s)) (Z.to_nat k + j) = Some e /\
     path e = name).
Proof.
  intros Hk. split; [|split].
  - now rewrite (exec_readdir_root (page c) s [] None Hk).
  - rewrite (readdir_page_content s c Hk), <- firstn_map.
    now rewrite numbered_names.
  - rewrite (readdir_page_content s c Hk). intros H.
    assert (H' : nth_error (numbered (skipn (Z.to_nat k)
                                            (entries (s_globals s)))
                                     (k + 1)) j = Some (name, off)).
    { revert H. generalize (numbered (skipn (Z.to_nat k)
                                            (entries (s_globals s)))
                                     (k + 1)).
      intros l. revert c j. induction l as [|x l IH]; intros c j H.
      - rewrite firstn_nil in H. destruct j; discriminate H.
      - destruct c as [|c]; [destruct j; discriminate H|].
        destruct j as [|j]; [exact H|]. cbn [firstn nth_error] in *.
        now apply (IH c). }
    apply numbered_nth in H'. destruct H' as (Ho & e & He & Hp).
    split; [lia|]. exists e. split; [|exact Hp].
    rewrite nth_error_skipn in He. exact He.
Qed.

(** X14.  Paging resumes without loss or repetition: when a first call from
    index k fills a buffer with room for c entries, and the transport
    calls again from the offset kept with the last entry of that page
    (from k again if the page is empty), the two pages together are the
    first c + c2 entries of the table from index k; with room enough in
    the second buffer, all of them. *)
Theorem readdir_resumes (s : state World) (c c2 : nat) (k : Z) :
  0 <= k <= INT_MAX ->
  entries_sz (s_globals s) <= INT_MAX ->
  map fst (readdir_page s c k
           ++ readdir_page s c2 (next_offset k (readdir_page s c k)))%list
  = firstn (c + c2)
           (map path (skipn (Z.to_nat k) (entries (s_globals s)))) /\
  ((List.length (entries (s_globals s)) <= Z.to_nat k + (c + c2))%nat ->
   map fst (readdir_page s c k
            ++ readdir_page s c2 (next_offset k (readdir_page s c k)))%list
   = map path (skipn (Z.to_nat k) (entries (s_globals s)))).
Proof.
  intros Hk Hsz. unfold entries_sz in Hsz.
  assert (Hmain :
    (readdir_page s c k
     ++ readdir_page s c2 (next_offset k (readdir_page s c k)))%list
    = firstn (c + c2)
             (numbered (skipn (Z.to_nat k) (entries (s_globals s)))
                       (k + 1))).
  { rewrite (readdir_page_content s c Hk), next_offset_page.
    set (l := skipn (Z.to_nat k) (entries (s_globals s))).
    set (m := Nat.min c (List.length l)).
    assert (Hl : (List.length l <= List.length (entries (s_globals s)))%nat).
    { unfold l. rewrite length_skipn. lia. }
    assert (Hl' : (List.length l + Z.to_nat k
                   <= Nat.max (Z.to_nat k)
                              (List.length (entries (s_globals s))))%nat).
    { unfold l. rewrite length_skipn. lia. }
    assert (Hnext : 0 <= k + Z.of_nat m <= INT_MAX).
    { unfold m. unfold INT_MAX in *. lia. }
    rewrite (readdir_page_content s c2 Hnext).
    replace (Z.to_nat (k + Z.of_nat m)) with (m + Z.to_nat k)%nat by lia.
    rewrite <- skipn_skipn. fold l.
    replace (k + Z.of_nat m + 1) with (k + 1 + Z.of_nat m) by lia.
    rewrite numbered_skipn. unfold m.
    rewrite <- (numbered_length l (k + 1)).
    apply firstn_two_pages. }
  rewrite Hmain, <- firstn_map, numbered_names. split; [reflexivity|].
  intros Hall. apply firstn_all2. rewrite length_map, length_skipn. lia.
Qed.

(** X15.  From a start index at or past the end of the table (and within
    [int]), readdir on root answers 0 and never calls the callback: the
    buffer is as it was. *)
Theorem readdir_past_end (s : state World) (B : Type)
        (filler : B -> string -> option Stat.stat -> Z -> Z * B)
        (buf : B) (k : Z) (fi : option Fuse.fuse_file_info) :
  entries_sz (s_globals s) <= k <= INT_MAX ->
  exec_readdir "/" buf filler k fi s = ((Some 0, buf), s).
Proof.
  intros Hk. unfold entries_sz in Hk.
  rewrite (exec_readdir_root filler s buf fi) by lia.
  rewrite skipn_all2 by lia. reflexivity.
Qed.

End Paging.

(** ** What no callback changes *)

Section Frame.
Context {World : Type} {libc : Libc World}.

Lemma same_mount_open (s : state World) (p : string)
      (fi : option Fuse.fuse_file_info) :
  same_mount s (snd (exec_open p fi s)).
Proof.
  destruct fi as [info|].
  - pose proof (exec_open_cases s p info) as C.
    destruct (find_entry (s_globals s) p) as [e|].
    + destruct (open_denied (Z.land (Fuse.flags info) RIGHTS_MASK)
                            (fst (access_rights e s))).
      * rewrite C. frame.
      * apply C.
    + rewrite C. frame.
  - unfold exec_open, bind, get_globals, ret, assert_failed, LOG.
    cbn [fst snd]. destruct (find_entry (s_globals s) p); frame.
Qed.

Lemma same_mount_read (s : state World) (p : string) (buf : list Byte.byte)
      (size offset : Z) (fi : option Fuse.fuse_file_info) :
  same_mount s (snd (exec_read p buf size offset fi s)).
Proof.
  unfold exec_read, bind, call, observe, ret, assert_failed, LOG.
  destruct fi as [info|]; [|frame].
  destruct (Fuse.fh info =? 0); [frame|].
  cbn [s_world s_globals s_context s_log].
  destruct (fread (Fuse.fh info) size (s_world s)) as [data w].
  destruct (Z.of_nat (List.length data) =? SIZE_MAX); frame.
Qed.

Lemma same_mount_write (s : state World) (p : string) (buf : list Byte.byte)
      (size offset : Z) (fi : option Fuse.fuse_file_info) :
  same_mount s (snd (exec_write p buf size offset fi s)).
Proof.
  unfold exec_write, bind, call, observe, ret, assert_failed, LOG.
  destruct fi as [info|]; [|frame].
  destruct (Fuse.fh info =? 0); [frame|].
  cbn [s_world s_globals s_context s_log].
  destruct (fwrite (Fuse.fh info) buf size (s_world s)) as [sz w].
  destruct (sz =? SIZE_MAX); frame.
Qed.

Lemma same_mount_release (s : state World) (p : string)
      (fi : option Fuse.fuse_file_info) :
  same_mount s (snd (exec_release p fi s)).
Proof.
  unfold exec_release, bind, get_globals, call, ret, assert_failed, LOG.
  cbn [fst snd].
  destruct (negb (is_root p
                  || match find_entry (s_globals s) p with
                     | Some _ => true
                     | None => false
                     end)); [frame|].
  destruct fi as [info|]; [|frame].
  destruct (Fuse.fh info =? 0); [frame|].
  destruct (pclose (Fuse.fh info) (s_world s)) as [r w]. frame.
Qed.

Lemma same_mount_flush (s : state World) (p : string)
      (fi : option Fuse.fuse_file_info) :
  same_mount s (snd (exec_flush p fi s)).
Proof.
  unfold exec_flush, bind, get_globals, call, ret, assert_failed, LOG.
  destruct (is_root p); [frame|]. cbn [fst snd].
  destruct (find_entry (s_globals s) p); [|frame].
  destruct fi as [info|]; [|frame].
  destruct (Fuse.fh info =? 0); [frame|].
  destruct (fflush (Fuse.fh info) (s_world s)) as [r w]. frame.
Qed.

Lemma same_mount_fsync (s : state World) (p : string) (datasync : Z)
      (fi : option Fuse.fuse_file_info) :
  same_mount s (snd (exec_fsync p datasync fi s)).
Proof.
  unfold exec_fsync, bind, get_globals, call, observe, ret, assert_failed,
    LOG.
  destruct (is_root p); [frame|]. cbn [fst snd].
  destruct (find_entry (s_globals s) p); [|frame].
  destruct fi as [info|]; [|frame].
  destruct (Fuse.fh info =? 0); [frame|].
  destruct (fsync (fileno (Fuse.fh info) (s_world s)) (s_world s)) as [r w].
  frame.
Qed.

Lemma same_mount_getattr (s : state World) (p : string)
      (stbuf : option Stat.stat) :
  same_mount s (snd (exec_getattr p stbuf s)).
Proof.
  unfold exec_getattr, bind, get_globals, observe, ret, assert_failed, LOG.
  destruct stbuf as [st|]; [|frame]. cbn [fst snd].
  destruct (is_root p); [frame|].
  destruct (find_entry (s_globals s) p); frame.
Qed.

Lemma same_mount_readdir (s : state World) (B : Type) (p : string) (buf : B)
      (filler : B -> string -> option Stat.stat -> Z -> Z * B) (offset : Z)
      (fi : option Fuse.fuse_file_info) :
  same_mount s (snd (exec_readdir p buf filler offset fi s)).
Proof.
  unfold exec_readdir, bind, get_globals, ret.
  destruct (negb (is_root p)); frame.
Qed.

(** X17.  The mount is immutable under every callback that is not a stub: open,
    read, write, release, flush, fsync, getattr and readdir, on every
    argument and in every state, leave the entry table, the mount identity,
    the configured size and the caller's identity as they were, and only
    ever add lines at the end of the log. *)
Theorem callbacks_keep_mount (s : state World) (p : string)
        (fi : option Fuse.fuse_file_info) (buf : list Byte.byte)
        (size offset datasync : Z) (stbuf : option Stat.stat)
        (B : Type) (dirbuf : B)
        (filler : B -> string -> option Stat.stat -> Z -> Z * B) :
  same_mount s (snd (exec_open p fi s)) /\
  same_mount s (snd (exec_read p buf size offset fi s)) /\
  same_mount s (snd (exec_write p buf size offset fi s)) /\
  same_mount s (snd (exec_release p fi s)) /\
  same_mount s (snd (exec_flush p fi s)) /\
  same_mount s (snd (exec_fsync p datasync fi s)) /\
  same_mount s (snd (exec_getattr p stbuf s)) /\
  same_mount s (snd (exec_readdir p dirbuf filler offset fi s)).
Proof.
  split; [apply same_mount_open|].
  split; [apply same_mount_read|].
  split; [apply same_mount_write|].
  split; [apply same_mount_release|].
  split; [apply same_mount_flush|].
  split; [apply same_mount_fsync|].
  split; [apply same_mount_getattr|apply same_mount_readdir].
Qed.
End Frame.

(** ** The further properties at work on the sample mount *)

Lemma exec_open_refusal_leaves_no_trace_witness :
  (fst (fst (exec_open "/sink" (Some (Sample.request Fcntl.O_WRONLY))
                       (Sample.boot Sample.peer Sample.healthy)))
   = - Errno.ENOENT \/
   fst (fst (exec_open "/sink" (Some (Sample.request Fcntl.O_WRONLY))
                       (Sample.boot Sample.peer Sample.healthy)))
   = - Errno.EACCES) /\
  exec_open "/sink" (Some (Sample.request Fcntl.O_WRONLY))
            (Sample.boot Sample.peer Sample.healthy)
  = ((- Errno.EACCES, Some (Sample.request Fcntl.O_WRONLY)),
     Sample.boot Sample.peer Sample.healthy).
Proof.
  split; [right; reflexivity|].
  exact (@exec_open_refusal_leaves_no_trace _ _
           (Sample.boot Sample.peer Sample.healthy) "/sink"
           (Sample.request Fcntl.O_WRONLY) (or_intror eq_refl)).
Defined.

Lemma exec_open_starts_command_witness :
  find_entry Sample.mount "/sink" = Some Sample.sink /\
  fst (fst (exec_open "/sink" (Some (Sample.request Fcntl.O_WRONLY))
                      (Sample.boot Sample.owner Sample.healthy)))
  <> - Errno.EACCES /\
  fst (exec_open "/sink" (Some (Sample.request Fcntl.O_WRONLY))
                 (Sample.boot Sample.owner Sample.healthy))
  = (0, Some (Sample.handle Fcntl.O_WRONLY)).
Proof.
  assert (Hne : fst (fst (exec_open "/sink"
                            (Some (Sample.request Fcntl.O_WRONLY))
                            (Sample.boot Sample.owner Sample.healthy)))
                <> - Errno.EACCES) by (intros H; discriminate H).
  split; [reflexivity|]. split; [exact Hne|].
  exact (proj1 (@exec_open_starts_command _ _
                  (Sample.boot Sample.owner Sample.healthy) "/sink"
                  (Sample.request Fcntl.O_WRONLY) Sample.sink eq_refl
                  Hne)).
Defined.

Lemma exec_open_mode_three_unchecked_witness :
  Z.land (Fuse.flags (Sample.request 3)) RIGHTS_MASK = 3 /\
  find_entry Sample.mount "/hello" = Some Sample.hello /\
  fst (fst (exec_open "/hello" (Some (Sample.request 3))
                      (Sample.boot Sample.stranger Sample.healthy))) = 0.
Proof.
  split; [reflexivity|]. split; [reflexivity|].
  exact (proj1 (@exec_open_mode_three_unchecked _ _
                  (Sample.boot Sample.stranger Sample.healthy) "/hello"
                  (Sample.request 3) Sample.hello eq_refl eq_refl)).
Defined.

Lemma exec_open_denied_by_class_witness :
  Z.land (Fuse.flags (Sample.request Fcntl.O_RDONLY)) RIGHTS_MASK
  = mode_flag ReadOnly /\
  find_entry Sample.mount "/hello" = Some Sample.hello /\
  fst (fst (exec_open "/hello" (Some (Sample.request Fcntl.O_RDONLY))
                      (Sample.boot Sample.stranger Sample.healthy)))
  = - Errno.EACCES.
Proof.
  split; [reflexivity|]. split; [reflexivity|].
  apply (proj2 (@exec_open_denied_by_class _ _
                  (Sample.boot Sample.stranger Sample.healthy) "/hello"
                  (Sample.request Fcntl.O_RDONLY) ReadOnly Sample.hello
                  eq_refl eq_refl)).
  reflexivity.
Defined.

Lemma exec_open_root_not_found_witness :
  (forall e, In e (entries Sample.mount) -> path e <> "") /\
  exec_open "/" (Some (Sample.request Fcntl.O_RDONLY))
            (Sample.boot Sample.owner Sample.healthy)
  = ((- Errno.ENOENT, Some (Sample.request Fcntl.O_RDONLY)),
     Sample.boot Sample.owner Sample.healthy).
Proof.
  assert (H : forall e, In e (entries Sample.mount) -> path e <> "").
  { intros e [<-|[<-|[]]] H; discriminate H. }
  split; [exact H|].
  exact (@exec_open_root_not_found _ _
           (Sample.boot Sample.owner Sample.healthy)
           (Sample.request Fcntl.O_RDONLY) H).
Defined.

Lemma open_then_release_witness :
  fst (fst (exec_open "/hello" (Some (Sample.request Fcntl.O_RDONLY))
                      (Sample.boot Sample.owner Sample.healthy))) = 0 /\
  fst (exec_release "/hello"
         (snd (fst (exec_open "/hello"
                      (Some (Sample.request Fcntl.O_RDONLY))
                      (Sample.boot Sample.owner Sample.healthy))))
         (snd (exec_open "/hello" (Some (Sample.request Fcntl.O_RDONLY))
                         (Sample.boot Sample.owner Sample.healthy)))) = 0.
Proof.
  assert (H0 : fst (fst (exec_open "/hello"
                           (Some (Sample.request Fcntl.O_RDONLY))
                           (Sample.boot Sample.owner Sample.healthy))) = 0)
    by reflexivity.
  split; [exact H0|].
  destruct (@open_then_release _ _
              (Sample.boot Sample.owner Sample.healthy) "/hello"
              (Sample.request Fcntl.O_RDONLY) H0)
    as (e & h & _ & _ & _ & _ & Hrel).
  rewrite Hrel. reflexivity.
Defined.

Lemma open_then_transfer_witness :
  fst (fst (exec_open "/sink" (Some (Sample.request Fcntl.O_WRONLY))
                      (Sample.boot Sample.owner Sample.healthy))) = 0 /\
  fst (exec_write "/sink" [Byte.x68; Byte.x69] 2 0
         (snd (fst (exec_open "/sink"
                      (Some (Sample.request Fcntl.O_WRONLY))
                      (Sample.boot Sample.owner Sample.healthy))))
         (snd (exec_open "/sink" (Some (Sample.request Fcntl.O_WRONLY))
                         (Sample.boot Sample.owner Sample.healthy)))) = 2.
Proof.
  assert (H0 : fst (fst (exec_open "/sink"
                           (Some (Sample.request Fcntl.O_WRONLY))
                           (Sample.boot Sample.owner Sample.healthy))) = 0)
    by reflexivity.
  split; [exact H0|].
  destruct (@open_then_transfer _ _
              (Sample.boot Sample.owner Sample.healthy) "/sink"
              (Sample.request Fcntl.O_WRONLY) [Byte.x68; Byte.x69] 2 0
              H0)
    as (e & h & He & Hh & _ & Hwrite & _).
  rewrite Hwrite. injection He as <-. subst h. reflexivity.
Defined.

Lemma no_stream_no_transfer_witness :
  no_stream (Some (Sample.request Fcntl.O_RDONLY)) = true /\
  fst (exec_read "/hello" [Byte.x00] 1 0
                 (Some (Sample.request Fcntl.O_RDONLY))
                 (Sample.boot Sample.owner Sample.healthy))
  = (-1, [Byte.x00]).
Proof.
  split; [reflexivity|].
  exact (proj1 (@no_stream_no_transfer _ _
                  (Sample.boot Sample.owner Sample.healthy) "/hello"
                  (Some (Sample.request Fcntl.O_RDONLY)) [Byte.x00] 1 0 0
                  eq_refl)).
Defined.

Lemma exec_getattr_listed_name_witness :
  In Sample.hello (entries Sample.mount) /\
  exists st,
    exec_getattr "/hello"
      (Some {| Stat.st_uid := 0; Stat.st_gid := 0; Stat.st_atime := 0;
               Stat.st_mtime := 0; Stat.st_ctime := 0; Stat.st_mode := 0;
               Stat.st_size := 0; Stat.st_nlink := 0 |})
      (Sample.boot Sample.stranger Sample.healthy)
    = ((0, Some st), Sample.boot Sample.stranger Sample.healthy) /\
    Z.land (Stat.st_mode st) Stat.S_IFMT = Stat.S_IFREG.
Proof.
  split; [left; reflexivity|].
  exact (@exec_getattr_listed_name _ _
           (Sample.boot Sample.stranger Sample.healthy) Sample.hello
           {| Stat.st_uid := 0; Stat.st_gid := 0; Stat.st_atime := 0;
              Stat.st_mtime := 0; Stat.st_ctime := 0; Stat.st_mode := 0;
              Stat.st_size := 0; Stat.st_nlink := 0 |}
           (or_introl eq_refl)).
Defined.

Lemma find_entry_round_trip_witness :
  NoDup (map path (entries Sample.mount)) /\
  In Sample.sink (entries Sample.mount) /\
  find_entry Sample.mount "/sink" = Some Sample.sink.
Proof.
  assert (Hnd : NoDup (map path (entries Sample.mount))).
  { repeat constructor.
    - intros [H|[]]. discriminate H.
    - intros []. }
  split; [exact Hnd|]. split; [right; left; reflexivity|].
  exact (@find_entry_round_trip Sample.mount Sample.sink Hnd
           (or_intror (or_introl eq_refl))).
Defined.

Lemma readdir_page_offsets_witness :
  0 <= 1 <= INT_MAX /\
  nth_error (readdir_page (Sample.boot Sample.stranger Sample.healthy) 1 1)
            0 = Some ("sink", 2) /\
  2 = 1 + Z.of_nat 0 + 1 /\
  exists e, nth_error (entries Sample.mount) (Z.to_nat 1 + 0) = Some e /\
            path e = "sink".
Proof.
  assert (Hk : 0 <= 1 <= INT_MAX) by (unfold INT_MAX; lia).
  split; [exact Hk|]. split; [reflexivity|].
  exact (proj2 (proj2 (@readdir_page_offsets _
                         (Sample.boot Sample.stranger Sample.healthy)
                         1%nat 1 0%nat "sink" 2 Hk)) eq_refl).
Defined.

Lemma readdir_resumes_witness :
  0 <= 0 <= INT_MAX /\
  entries_sz Sample.mount <= INT_MAX /\
  map fst
    (readdir_page (Sample.boot Sample.stranger Sample.healthy) 1 0
     ++ readdir_page (Sample.boot Sample.stranger Sample.healthy) 5
          (next_offset 0
             (readdir_page (Sample.boot Sample.stranger Sample.healthy)
                           1 0)))%list
  = ["hello"; "sink"].
Proof.
  assert (Hk : 0 <= 0 <= INT_MAX) by (unfold INT_MAX; lia).
  assert (Hsz : entries_sz Sample.mount <= INT_MAX)
    by (unfold INT_MAX, entries_sz; simpl; lia).
  split; [exact Hk|]. split; [exact Hsz|].
  exact (proj1 (@readdir_resumes _
                  (Sample.boot Sample.stranger Sample.healthy)
                  1%nat 5%nat 0 Hk Hsz)).
Defined.

Lemma readdir_past_end_witness :
  entries_sz Sample.mount <= 2 <= INT_MAX /\
  exec_readdir "/" [] collect 2 None
               (Sample.boot Sample.stranger Sample.healthy)
  = ((Some 0, []), Sample.boot Sample.stranger Sample.healthy).
Proof.
  assert (Hk : entries_sz Sample.mount <= 2 <= INT_MAX)
    by (unfold INT_MAX, entries_sz; simpl; lia).
  split; [exact Hk|].
  exact (@readdir_past_end _ (Sample.boot Sample.stranger Sample.healthy)
           _ collect [] 2 None Hk).
Defined.


(** ** How the callbacks agree with getattr *)

(** X18.  Resolution never invents an entry: a path that resolves to an entry is
    the separator followed by the stored path of that entry, the entry is
    in the table, and its stored path is not empty; an entry stored under
    the empty path is hidden behind root. *)
Theorem resolve_entry_is_stored (g : globals) (p : string) (e : entry_t) :
  resolve g p = Entry e ->
  In e (entries g) /\ p = String "/" (path e) /\ path e <> "".
Proof.
  unfold resolve. destruct (is_root p) eqn:Hr; [discriminate|].
  destruct (find_entry g p) as [e'|] eqn:Hf; [|discriminate].
  intros [= ->]. split; [now apply (find_entry_in g p)|].
  destruct p as [|c rest]; [discriminate Hf|].
  destruct (Ascii.eqb_spec c "/") as [->|Hc].
  - apply find_entry_first in Hf. destruct Hf as (i & _ & Hp & _).
    subst rest. split; [reflexivity|].
    intros Hempty. rewrite Hempty in Hr. discriminate Hr.
  - cbn [find_entry] in Hf.
    destruct (Ascii.eqb_spec c "/"); [contradiction|discriminate Hf].
Qed.

Lemma resolve_entry_is_stored_witness :
  resolve Sample.mount "/hello" = Entry Sample.hello /\
  In Sample.hello (entries Sample.mount) /\
  "/hello" = String "/" (path Sample.hello) /\
  path Sample.hello <> "".
Proof.
  assert (H : resolve Sample.mount "/hello" = Entry Sample.hello)
    by reflexivity.
  split; [exact H|].
  exact (@resolve_entry_is_stored Sample.mount "/hello" Sample.hello H).
Defined.

Section Agreement.
Context {World : Type} {libc : Libc World}.

Lemma exec_getattr_return (s : state World) (p : string) (st0 : Stat.stat) :
  fst (fst (exec_getattr p (Some st0) s))
  = match resolve (s_globals s) p with
    | NotFound => - Errno.ENOENT
    | _ => 0
    end.
Proof.
  unfold resolve. destruct (is_root p) eqn:Hr.
  - apply is_root_iff in Hr. subst p. now rewrite exec_getattr_root.
  - rewrite (@exec_getattr_not_root _ _ s p st0 Hr).
    destruct (find_entry (s_globals s) p); reflexivity.
Qed.

(** X19.  The operations accepted as no-ops know exactly the paths getattr
    knows: on every path and in every state each of them returns what
    getattr returns there, 0 or [ENOENT]. *)
Theorem nop_stub_agrees_with_getattr (s : state World) (c : nop_call)
        (p : string) (st0 : Stat.stat) :
  fst (ops_nop c p s) = fst (fst (exec_getattr p (Some st0) s)).
Proof.
  rewrite exec_getattr_return. unfold resolve.
  destruct c; cbn [ops_nop];
    unfold exec_fsyncdir, exec_releasedir, exec_truncate, exec_utime,
      exec_utimens, NOP_STUB, bind, LOG, get_globals, ret;
    cbn [fst snd s_globals];
    destruct (is_root p); cbn [negb andb];
    try destruct (find_entry (s_globals s) p); reflexivity.
Qed.

(** X20.  What can be opened can be examined: when open succeeds on a path,
    getattr succeeds on it. *)
Theorem open_implies_getattr (s : state World) (p : string)
        (info : Fuse.fuse_file_info) (st0 : Stat.stat) :
  fst (fst (exec_open p (Some info) s)) = 0 ->
  fst (fst (exec_getattr p (Some st0) s)) = 0.
Proof.
  intros H0. rewrite exec_getattr_return. unfold resolve.
  destruct (is_root p); [reflexivity|].
  pose proof (exec_open_cases s p info) as C.
  destruct (find_entry (s_globals s) p); [reflexivity|].
  rewrite C in H0. discriminate H0.
Qed.

(** X21.  The attributes predict the rights test.  For a path that resolves to
    an entry, reading the mode getattr reports by the first matching rule
    against the owner getattr reports (the owner triple when the caller's
    uid is the reported uid, else the group triple when the caller's gid
    is the reported gid, else the other triple) gives exactly the rights
    exec_open computes for the caller. *)
Theorem getattr_predicts_rights (s : state World) (p : string)
        (st0 : Stat.stat) (e : entry_t) :
  resolve (s_globals s) p = Entry e ->
  exists st,
    snd (fst (exec_getattr p (Some st0) s)) = Some st /\
    rights_triple (fst (access_rights e s))
    = if Fuse.uid (s_context s) =? Stat.st_uid st
      then fst (fst (mode_triples (Stat.st_mode st)))
      else if Fuse.gid (s_context s) =? Stat.st_gid st
           then snd (fst (mode_triples (Stat.st_mode st)))
           else snd (mode_triples (Stat.st_mode st)).
Proof.
  unfold resolve. destruct (is_root p) eqn:Hr; [discriminate|].
  destruct (find_entry (s_globals s) p) as [e'|] eqn:Hf; [|discriminate].
  intros [= ->]. rewrite (@exec_getattr_not_root _ _ s p st0 Hr), Hf.
  eexists. split; [reflexivity|].
  cbn [Stat.st_uid Stat.st_gid Stat.st_mode].
  destruct (entry_mode_bits e) as (_ & Hb & _). rewrite Hb. cbn [fst snd].
  apply access_rights_triple.
Qed.
End Agreement.

Lemma open_implies_getattr_witness :
  fst (fst (exec_open "/hello" (Some (Sample.request Fcntl.O_RDONLY))
                      (Sample.boot Sample.peer Sample.healthy))) = 0 /\
  fst (fst (exec_getattr "/hello"
              (Some {| Stat.st_uid := 0; Stat.st_gid := 0;
                       Stat.st_atime := 0; Stat.st_mtime := 0;
                       Stat.st_ctime := 0; Stat.st_mode := 0;
                       Stat.st_size := 0; Stat.st_nlink := 0 |})
              (Sample.boot Sample.peer Sample.healthy))) = 0.
Proof.
  assert (H0 : fst (fst (exec_open "/hello"
                           (Some (Sample.request Fcntl.O_RDONLY))
                           (Sample.boot Sample.peer Sample.healthy))) = 0)
    by reflexivity.
  split; [exact H0|].
  exact (@open_implies_getattr _ _
           (Sample.boot Sample.peer Sample.healthy) "/hello"
           (Sample.request Fcntl.O_RDONLY)
           {| Stat.st_uid := 0; Stat.st_gid := 0; Stat.st_atime := 0;
              Stat.st_mtime := 0; Stat.st_ctime := 0; Stat.st_mode := 0;
              Stat.st_size := 0; Stat.st_nlink := 0 |} H0).
Defined.

Lemma getattr_predicts_rights_witness :
  resolve Sample.mount "/hello" = Entry Sample.hello /\
  exists st,
    snd (fst (exec_getattr "/hello"
                (Some {| Stat.st_uid := 0; Stat.st_gid := 0;
                         Stat.st_atime := 0; Stat.st_mtime := 0;
                         Stat.st_ctime := 0; Stat.st_mode := 0;
                         Stat.st_size := 0; Stat.st_nlink := 0 |})
                (Sample.boot Sample.peer Sample.healthy))) = Some st /\
    rights_triple (fst (access_rights Sample.hello
                          (Sample.boot Sample.peer Sample.healthy)))
    = if Fuse.uid Sample.peer =? Stat.st_uid st
      then fst (fst (mode_triples (Stat.st_mode st)))
      else if Fuse.gid Sample.peer =? Stat.st_gid st
           then snd (fst (mode_triples (Stat.st_mode st)))
           else snd (mode_triples (Stat.st_mode st)).
Proof.
  assert (H : resolve Sample.mount "/hello" = Entry Sample.hello)
    by reflexivity.
  split; [exact H|].
  exact (@getattr_predicts_rights _ _
           (Sample.boot Sample.peer Sample.healthy) "/hello"
           {| Stat.st_uid := 0; Stat.st_gid := 0; Stat.st_atime := 0;
              Stat.st_mtime := 0; Stat.st_ctime := 0; Stat.st_mode := 0;
              Stat.st_size := 0; Stat.st_nlink := 0 |} Sample.hello H).
Defined.
